(** * sftp_server: a shallow embedding of [sftp_server.go]

    The Go package wraps [github.com/pkg/sftp]: every exported method of
    [SFTPClient] dials a fresh session, performs a few calls on the remote
    filesystem and closes the session again.  The remote side is not part
    of the package, so the methods are embedded over an interface
    ([RemoteFilesystem]) that lists exactly the library calls the source
    makes; each call passes the state of the outside world explicitly.

    Layout: Go data ([os], [ssh], [strings]), the interface, the methods
    of the package, a call log ([Logged]), an in-memory server ([MemFS]),
    then the theorems. *)

From Stdlib Require Import List String Ascii ZArith Lia Bool.
From Stdlib.Strings Require Import Byte.
Import ListNotations.
Open Scope string_scope.

(** ** Go values *)

(** Go's [error] interface, following the three kinds that the callers of
    the package can tell apart. *)
Inductive error : Type :=
| ConnectionError (msg : string)
| NotFoundError
| RemoteOperationError (msg : string).

(** A library call returning [(T, error)]: the value, or the error. *)
Definition result (A : Type) : Type := (A + error)%type.

(** [interface{}]: [nil] or a value the package never inspects. *)
Definition any : Type := option Z.

(** [[]byte(data)] on a Go string. *)
Definition bytes_of_string (data : string) : list byte := list_byte_of_string data.

Module os.

(** The six methods of [os.FileInfo], as the values they return. *)
Record FileInfo : Type := {
  Name : string;
  Size : Z;
  Mode : Z;
  ModTime : Z;
  IsDir : bool;
  Sys : any
}.

(** Flags of [os.OpenFile] (Linux values, as the sftp package maps them). *)
Definition O_RDONLY : Z := 0.
Definition O_WRONLY : Z := 1.
Definition O_RDWR : Z := 2.
Definition O_CREATE : Z := 64.
Definition O_TRUNC : Z := 512.
Definition O_APPEND : Z := 1024.

(** [os.ModeDir], bit 31 of an [os.FileMode]. *)
Definition ModeDir : Z := Z.shiftl 1 31.

End os.

Module ssh.

Inductive AuthMethod : Type :=
| Password (secret : string).

Inductive HostKeyPolicy : Type :=
| InsecureIgnoreHostKey.

Record ClientConfig : Type := {
  User : string;
  Auth : list AuthMethod;
  HostKeyCallback : HostKeyPolicy
}.

End ssh.

Module strings.

(** [strings.Split(s, sep)] for a separator of one byte, which is the only
    way the package calls it ([sep = "/"]).  The result is never empty:
    [Split "" "/" = [""]]. *)
Fixpoint Split (s : string) (sep : ascii) : list string :=
  match s with
  | EmptyString => [EmptyString]
  | String ch rest =>
      if Ascii.eqb ch sep then EmptyString :: Split rest sep
      else match Split rest sep with
           | [] => [String ch EmptyString]
           | hd :: tl => String ch hd :: tl
           end
  end.

End strings.

(** ** The structs of the package *)

Record SFTPClient : Type := {
  Username : string;
  Password : string;
  IPAddress : string;
  Port : string
}.

Record fileInfo : Type := {
  name : string;
  size : Z;
  mode : Z;
  modTime : Z;
  isDir : bool;
  Sys : any
}.

(** ** State passing *)

(** A computation over the outside world [W]. *)
Definition M (W A : Type) : Type := W -> W * A.

Definition ret {W A : Type} (a : A) : M W A := fun w => (w, a).

Definition bind {W A B : Type} (m : M W A) (k : A -> M W B) : M W B :=
  fun w => let (w', a) := m w in k a w'.

Declare Scope go_scope.
Delimit Scope go_scope with go.
Notation "x <- m ;; k" := (bind m (fun x => k))
  (at level 100, m at next level, right associativity) : go_scope.
Open Scope go_scope.

(** [defer cleanup] placed before [body]: the cleanup runs on every way out
    of [body], and what it returns is dropped. *)
Definition defer {W A B : Type} (cleanup : M W B) (body : M W A) : M W A :=
  x <- body ;; _ <- cleanup ;; ret x.

(** ** The remote side *)

(** The calls the package makes on [ssh], [*sftp.Client], [*sftp.File] and
    [bytes.Buffer].  [Conn], [Client] and [File] are the handles that the
    library hands out. *)
Class RemoteFilesystem (W Conn Client File : Type) : Type := {
  ssh_Dial : string -> string -> ssh.ClientConfig -> M W (result Conn);
  sftp_NewClient : Conn -> M W (result Client);
  Client_Close : Client -> M W (option error);
  Client_Stat : Client -> string -> M W (result os.FileInfo);
  Client_OpenFile : Client -> string -> Z -> M W (result File);
  Client_Create : Client -> string -> M W (result File);
  Client_Open : Client -> string -> M W (result File);
  Client_ReadDir : Client -> string -> M W (result (list os.FileInfo));
  Client_Mkdir : Client -> string -> M W (option error);
  File_Write : File -> list byte -> M W (result Z);
  (** [buf.ReadFrom(f)] on a fresh buffer: the bytes that reached the
      buffer, and the error that stopped the reading, if any. *)
  Buffer_ReadFrom : File -> M W (list byte * option error);
  File_Close : File -> M W (option error)
}.

(** ** The methods of [SFTPClient] *)

Section Package.

Context {W Conn Client File : Type}.
Context {R : RemoteFilesystem W Conn Client File}.

Definition connect (c : SFTPClient) : M W (result Client) :=
  let config := {| ssh.User := Username c;
                   ssh.Auth := [ssh.Password (Password c)];
                   ssh.HostKeyCallback := ssh.InsecureIgnoreHostKey |} in
  r <- ssh_Dial "tcp" ((IPAddress c ++ ":") ++ Port c) config ;;
  match r with
  | inr err => ret (inr err)
  | inl conn =>
      r <- sftp_NewClient conn ;;
      match r with
      | inr err => ret (inr err)
      | inl client => ret (inl client)
      end
  end.

Definition AppendToFile (c : SFTPClient) (filePath data : string)
  : M W (option error) :=
  r <- connect c ;;
  match r with
  | inr err => ret (Some err)
  | inl client =>
      defer (Client_Close client)
        (st <- Client_Stat client filePath ;;
         match st with
         | inl _ =>
             (* File exists, append to it *)
             o <- Client_OpenFile client filePath (Z.lor os.O_APPEND os.O_WRONLY) ;;
             match o with
             | inr err => ret (Some err)
             | inl f =>
                 defer (File_Close f)
                   (n <- File_Write f (bytes_of_string data) ;;
                    match n with
                    | inr err => ret (Some err)
                    | inl _ => ret None
                    end)
             end
         | inr _ =>
             (* File does not exist, create it *)
             o <- Client_Create client filePath ;;
             match o with
             | inr err => ret (Some err)
             | inl f =>
                 defer (File_Close f)
                   (n <- File_Write f (bytes_of_string data) ;;
                    match n with
                    | inr err => ret (Some err)
                    | inl _ => ret None
                    end)
             end
         end)
  end.

Definition OverwriteFile (c : SFTPClient) (filePath data : string)
  : M W (option error) :=
  r <- connect c ;;
  match r with
  | inr err => ret (Some err)
  | inl client =>
      defer (Client_Close client)
        (o <- Client_Create client filePath ;;
         match o with
         | inr err => ret (Some err)
         | inl f =>
             defer (File_Close f)
               (n <- File_Write f (bytes_of_string data) ;;
                match n with
                | inr err => ret (Some err)
                | inl _ => ret None
                end)
         end)
  end.

(** Returns Go's pair [([]byte, error)]; a [nil] slice is [[]]. *)
Definition ReadFile (c : SFTPClient) (filePath : string)
  : M W (list byte * option error) :=
  r <- connect c ;;
  match r with
  | inr err => ret ([], Some err)
  | inl client =>
      defer (Client_Close client)
        (o <- Client_Open client filePath ;;
         match o with
         | inr err => ret ([], Some err)
         | inl f =>
             defer (File_Close f)
               (b <- Buffer_ReadFrom f ;;
                match b with
                | (_, Some err) => ret ([], Some err)
                | (buf, None) => ret (buf, None)
                end)
         end)
  end.

Definition ListOfFilesDir (c : SFTPClient) (dirPath : string)
  : M W (list os.FileInfo * option error) :=
  r <- connect c ;;
  match r with
  | inr err => ret ([], Some err)
  | inl client =>
      defer (Client_Close client)
        (l <- Client_ReadDir client dirPath ;;
         match l with
         | inr err => ret ([], Some err)
         | inl files => ret (files, None)
         end)
  end.

(** The record appended for a non-directory entry [f] under [prefix]. *)
Definition newFile (prefix : string) (f : os.FileInfo) : fileInfo :=
  {| name := (prefix ++ "/") ++ os.Name f;
     size := os.Size f;
     mode := os.Mode f;
     modTime := os.ModTime f;
     isDir := os.IsDir f;
     Sys := os.Sys f |}.

(** The recursion follows the remote tree, which the package does not
    bound, so it is given [fuel]: one unit per nested call.  The slice
    behind the pointer [allFiles] is passed in and returned; the second
    component is [None] when the fuel ran out and [Some err] for Go's
    returned [err] otherwise. *)
Fixpoint listAllFilesRecursive (fuel : nat) (dirPath prefix : string)
    (client : Client) (allFiles : list fileInfo)
  : M W (list fileInfo * option (option error)) :=
  match fuel with
  | O => ret (allFiles, None)
  | S fuel' =>
      r <- Client_ReadDir client dirPath ;;
      match r with
      | inr err => ret (allFiles, Some (Some err))
      | inl files =>
          (fix range (files : list os.FileInfo) (allFiles : list fileInfo)
             : M W (list fileInfo * option (option error)) :=
             match files with
             | [] => ret (allFiles, Some None)
             | f :: files' =>
                 if os.IsDir f then
                   let newPrefix := (prefix ++ "/") ++ os.Name f in
                   r <- listAllFilesRecursive fuel'
                          ((dirPath ++ "/") ++ os.Name f) newPrefix client allFiles ;;
                   match r with
                   | (allFiles', Some None) => range files' allFiles'
                   | (allFiles', stop) => ret (allFiles', stop)
                   end
                 else
                   range files' (allFiles ++ [newFile prefix f])%list
             end) files allFiles
      end
  end.

(** [None] when the fuel ran out, else Go's pair [([]fileInfo, error)]. *)
Definition ListAllFiles (c : SFTPClient) (fuel : nat) (dirPath : string)
  : M W (option (list fileInfo * option error)) :=
  r <- connect c ;;
  match r with
  | inr err => ret (Some ([], Some err))
  | inl client =>
      defer (Client_Close client)
        (r <- listAllFilesRecursive fuel dirPath "" client [] ;;
         match r with
         | (_, None) => ret None
         | (_, Some (Some err)) => ret (Some ([], Some err))
         | (allFiles, Some None) => ret (Some (allFiles, None))
         end)
  end.

Definition CreateDirectoryIfNotExist (c : SFTPClient) (dirPath : string)
  : M W (option error) :=
  r <- connect c ;;
  match r with
  | inr err => ret (Some err)
  | inl client =>
      defer (Client_Close client)
        (st <- Client_Stat client dirPath ;;
         match st with
         | inl _ => ret None
         | inr _ =>
             m <- Client_Mkdir client dirPath ;;
             match m with
             | Some err => ret (Some err)
             | None => ret None
             end
         end)
  end.

(** The [for ... range pathComponents] loop of
    [CreateDirectoryRecursively], with its variable [currentPath]. *)
Fixpoint createComponents (client : Client) (pathComponents : list string)
    (currentPath : string) : M W (option error) :=
  match pathComponents with
  | [] => ret None
  | component :: rest =>
      if (component =? "")%string then
        createComponents client rest currentPath
      else
        let currentPath := currentPath ++ ("/" ++ component) in
        st <- Client_Stat client currentPath ;;
        match st with
        | inl _ => createComponents client rest currentPath
        | inr _ =>
            m <- Client_Mkdir client currentPath ;;
            match m with
            | Some err => ret (Some err)
            | None => createComponents client rest currentPath
            end
        end
  end.

Definition CreateDirectoryRecursively (c : SFTPClient) (dirPath : string)
  : M W (option error) :=
  r <- connect c ;;
  match r with
  | inr err => ret (Some err)
  | inl client =>
      defer (Client_Close client)
        (let pathComponents := strings.Split dirPath "/" in
         createComponents client pathComponents "")
  end.

End Package.

(** ** A log of the calls *)

(** One entry per library call, with what the call answered. *)
Inductive event : Type :=
| EvDial (network addr : string) (config : ssh.ClientConfig) (err : option error)
| EvNewClient (err : option error)
| EvClientClose
| EvStat (path : string) (r : result os.FileInfo)
| EvOpenFile (path : string) (flags : Z) (err : option error)
| EvCreate (path : string) (err : option error)
| EvOpen (path : string) (err : option error)
| EvReadDir (path : string) (r : result (list os.FileInfo))
| EvMkdir (path : string) (err : option error)
| EvWrite (data : list byte) (err : option error)
| EvReadFrom (data : list byte) (err : option error)
| EvFileClose.

Definition failure {A : Type} (r : result A) : option error :=
  match r with
  | inl _ => None
  | inr err => Some err
  end.

(** Runs [m] on the world and appends the entry for its answer. *)
Definition logged {W A : Type} (m : M W A) (ev : A -> event)
  : M (W * list event) A :=
  fun wl => let (w', a) := m (fst wl) in ((w', (snd wl ++ [ev a])%list), a).

(** Any remote side, with every call written to a log (oldest first). *)
Definition Logged {W Conn Client File : Type}
    (R : RemoteFilesystem W Conn Client File)
  : RemoteFilesystem (W * list event) Conn Client File :=
  {| ssh_Dial network addr config :=
       logged (ssh_Dial network addr config)
              (fun r => EvDial network addr config (failure r));
     sftp_NewClient conn :=
       logged (sftp_NewClient conn) (fun r => EvNewClient (failure r));
     Client_Close client :=
       logged (Client_Close client) (fun _ => EvClientClose);
     Client_Stat client path :=
       logged (Client_Stat client path) (fun r => EvStat path r);
     Client_OpenFile client path flags :=
       logged (Client_OpenFile client path flags)
              (fun r => EvOpenFile path flags (failure r));
     Client_Create client path :=
       logged (Client_Create client path) (fun r => EvCreate path (failure r));
     Client_Open client path :=
       logged (Client_Open client path) (fun r => EvOpen path (failure r));
     Client_ReadDir client path :=
       logged (Client_ReadDir client path) (fun r => EvReadDir path r);
     Client_Mkdir client path :=
       logged (Client_Mkdir client path) (fun r => EvMkdir path r);
     File_Write f data :=
       logged (File_Write f data) (fun r => EvWrite data (failure r));
     Buffer_ReadFrom f :=
       logged (Buffer_ReadFrom f) (fun r => EvReadFrom (fst r) (snd r));
     File_Close f :=
       logged (File_Close f) (fun _ => EvFileClose) |}.

(** The non-empty components of a slash-separated path: what the loop of
    [CreateDirectoryRecursively] keeps of [strings.Split dirPath "/"]. *)
Definition components (path : string) : list string :=
  filter (fun s => negb (s =? "")%string) (strings.Split path "/").

(** ** An in-memory server *)

(** Modelled from the spec: the RemoteFilesystem capability of section 6
    (stat, open-for-read, open-for-append, create, write, read-all,
    list-directory, single-level make-directory, close), which the package
    reaches through [github.com/pkg/sftp] and which is not part of the
    repository.  A path is resolved from the root by its non-empty
    components; time is not modelled, and ["."] and [".."] are ordinary
    names. *)
Module MemFS.

#[warnings="-register-all"]
Inductive node : Type :=
| File (perm mtime : Z) (data : list byte)
| Dir (perm mtime : Z) (entries : list (string * node)).

Record server : Type := {
  addr : string;
  user : string;
  secret : string;
  root : node
}.

(** An open file: the path it was opened at and the open flags. *)
Record handle : Type := {
  h_path : string;
  h_flags : Z
}.

Definition segments (path : string) : list string := components path.

Fixpoint find (n : string) (es : list (string * node)) : option node :=
  match es with
  | [] => None
  | (k, v) :: es' => if (k =? n)%string then Some v else find n es'
  end.

Fixpoint replace (n : string) (v : node) (es : list (string * node))
  : list (string * node) :=
  match es with
  | [] => []
  | (k, v0) :: es' =>
      if (k =? n)%string then (k, v) :: es' else (k, v0) :: replace n v es'
  end.

Fixpoint lookup (segs : list string) (n : node) : option node :=
  match segs with
  | [] => Some n
  | s :: segs' =>
      match n with
      | Dir _ _ es =>
          match find s es with
          | Some child => lookup segs' child
          | None => None
          end
      | File _ _ _ => None
      end
  end.

(** Rewrites the node at [segs] by [f]; [f None] makes a new last entry
    of an existing directory (the parent is never made). *)
Fixpoint alter (f : option node -> result node) (segs : list string)
    (n : node) : result node :=
  match segs with
  | [] => f (Some n)
  | s :: segs' =>
      match n with
      | Dir p t es =>
          match find s es with
          | Some child =>
              match alter f segs' child with
              | inl child' => inl (Dir p t (replace s child' es))
              | inr err => inr err
              end
          | None =>
              match segs' with
              | [] =>
                  match f None with
                  | inl child' => inl (Dir p t (es ++ [(s, child')]))
                  | inr err => inr err
                  end
              | _ :: _ => inr NotFoundError
              end
          end
      | File _ _ _ => inr (RemoteOperationError "not a directory")
      end
  end.

Definition info (nm : string) (n : node) : os.FileInfo :=
  match n with
  | File p t data =>
      {| os.Name := nm; os.Size := Z.of_nat (List.length data); os.Mode := p;
         os.ModTime := t; os.IsDir := false; os.Sys := None |}
  | Dir p t _ =>
      {| os.Name := nm; os.Size := 0; os.Mode := Z.lor os.ModeDir p;
         os.ModTime := t; os.IsDir := true; os.Sys := None |}
  end.

Definition with_root (w : server) (r : node) : server :=
  {| addr := addr w; user := user w; secret := secret w; root := r |}.

Definition has_password (w : server) (config : ssh.ClientConfig) : bool :=
  existsb (fun a => match a with ssh.Password s => (s =? secret w)%string end)
          (ssh.Auth config).

Definition dial (network address : string) (config : ssh.ClientConfig)
  : M server (result unit) :=
  fun w =>
    if ((network =? "tcp") && (address =? addr w)
        && (ssh.User config =? user w))%string && has_password w config
    then (w, inl tt)
    else (w, inr (ConnectionError "ssh: handshake failed")).

Definition stat (path : string) : M server (result os.FileInfo) :=
  fun w =>
    match lookup (segments path) (root w) with
    | Some n => (w, inl (info (last (segments path) "/") n))
    | None => (w, inr NotFoundError)
    end.

Definition readDir (path : string) : M server (result (list os.FileInfo)) :=
  fun w =>
    match lookup (segments path) (root w) with
    | Some (Dir _ _ es) => (w, inl (map (fun e => info (fst e) (snd e)) es))
    | Some (File _ _ _) => (w, inr (RemoteOperationError "not a directory"))
    | None => (w, inr NotFoundError)
    end.

Definition mkdir (path : string) : M server (option error) :=
  fun w =>
    match alter (fun o => match o with
                          | None => inl (Dir 493 0 [])
                          | Some _ => inr (RemoteOperationError "file exists")
                          end) (segments path) (root w) with
    | inl r => (with_root w r, None)
    | inr err => (w, Some err)
    end.

Definition writable (flags : Z) : bool :=
  negb (Z.land flags 3 =? os.O_RDONLY)%Z.

Definition readable (flags : Z) : bool :=
  negb (Z.land flags 3 =? os.O_WRONLY)%Z.

(** [O_CREATE] makes a missing file, [O_TRUNC] empties an existing one. *)
Definition openFile (path : string) (flags : Z) : M server (result handle) :=
  fun w =>
    let h := {| h_path := path; h_flags := flags |} in
    match lookup (segments path) (root w) with
    | Some (File p t _) =>
        if Z.testbit flags 9 && writable flags then
          match alter (fun _ => inl (File p t [])) (segments path) (root w) with
          | inl r => (with_root w r, inl h)
          | inr err => (w, inr err)
          end
        else (w, inl h)
    | Some (Dir _ _ _) =>
        if writable flags then (w, inr (RemoteOperationError "is a directory"))
        else (w, inl h)
    | None =>
        if Z.testbit flags 6 then
          match alter (fun _ => inl (File 420 0 [])) (segments path) (root w) with
          | inl r => (with_root w r, inl h)
          | inr err => (w, inr err)
          end
        else (w, inr NotFoundError)
    end.

(** The package writes once per handle, so the write starts at offset 0,
    or at the end of the file when the handle was opened with
    [O_APPEND]. *)
Definition write (h : handle) (data : list byte) : M server (result Z) :=
  fun w =>
    if writable (h_flags h) then
      match alter (fun o =>
                     match o with
                     | Some (File p t old) =>
                         inl (File p t (if Z.testbit (h_flags h) 10
                                        then old ++ data
                                        else data ++ skipn (List.length data) old)%list)
                     | _ => inr (RemoteOperationError "bad file handle")
                     end) (segments (h_path h)) (root w) with
      | inl r => (with_root w r, inl (Z.of_nat (List.length data)))
      | inr err => (w, inr err)
      end
    else (w, inr (RemoteOperationError "bad file handle")).

Definition readFrom (h : handle) : M server (list byte * option error) :=
  fun w =>
    if readable (h_flags h) then
      match lookup (segments (h_path h)) (root w) with
      | Some (File _ _ data) => (w, (data, None))
      | _ => (w, ([], Some (RemoteOperationError "bad file handle")))
      end
    else (w, ([], Some (RemoteOperationError "bad file handle"))).

Definition Remote : RemoteFilesystem server unit unit handle :=
  {| ssh_Dial := dial;
     sftp_NewClient _ := ret (inl tt);
     Client_Close _ := ret None;
     Client_Stat _ := stat;
     Client_OpenFile _ := openFile;
     Client_Create _ path :=
       openFile path (Z.lor os.O_RDWR (Z.lor os.O_CREATE os.O_TRUNC));
     Client_Open _ path := openFile path os.O_RDONLY;
     Client_ReadDir _ := readDir;
     Client_Mkdir _ := mkdir;
     File_Write := write;
     Buffer_ReadFrom := readFrom;
     File_Close _ := ret None |}.

(** The bytes of the regular file at [path], if there is one. *)
Definition contents (w : server) (path : string) : option (list byte) :=
  match lookup (segments path) (root w) with
  | Some (File _ _ data) => Some data
  | _ => None
  end.

(** The server lets the client in. *)
Definition accepts (w : server) (c : SFTPClient) : bool :=
  (((IPAddress c ++ ":") ++ Port c =? addr w)
   && (Username c =? user w) && (Password c =? secret w))%string.

Definition exists_at (w : server) (path : string) : bool :=
  match lookup (segments path) (root w) with
  | Some _ => true
  | None => false
  end.

(** A name that a directory entry can have: not empty, no slash. *)
Fixpoint no_slash (s : string) : bool :=
  match s with
  | EmptyString => true
  | String ch rest => negb (Ascii.eqb ch "/") && no_slash rest
  end.

Definition valid_name (s : string) : bool :=
  negb (s =? "")%string && no_slash s.

(** A tree as a filesystem holds it: in every directory the names are
    valid and no name occurs twice. *)
Fixpoint well_formed (n : node) : Prop :=
  match n with
  | File _ _ _ => True
  | Dir _ _ es =>
      NoDup (map fst es)
      /\ (fix all (l : list (string * node)) : Prop :=
            match l with
            | [] => True
            | (k, child) :: l' =>
                valid_name k = true /\ well_formed child /\ all l'
            end) es
  end.

(** The number of nested directories. *)
Fixpoint height (n : node) : nat :=
  match n with
  | File _ _ _ => 0
  | Dir _ _ es =>
      S ((fix highest (l : list (string * node)) : nat :=
            match l with
            | [] => 0
            | (_, child) :: l' => Nat.max (height child) (highest l')
            end) es)
  end.

End MemFS.

(** A remote side that answers as [R], except that [Stat] and [ReadDir]
    are refused, with the given error, on the paths for which [no_stat] and
    [no_list] give one (a write-only drop box refuses every probe). *)
Definition Deny {W Conn Client File : Type}
    (no_stat no_list : string -> option error)
    (R : RemoteFilesystem W Conn Client File)
  : RemoteFilesystem W Conn Client File :=
  {| ssh_Dial := ssh_Dial;
     sftp_NewClient := sftp_NewClient;
     Client_Close := Client_Close;
     Client_Stat client path :=
       match no_stat path with
       | Some err => ret (inr err)
       | None => Client_Stat client path
       end;
     Client_OpenFile := Client_OpenFile;
     Client_Create := Client_Create;
     Client_Open := Client_Open;
     Client_ReadDir client path :=
       match no_list path with
       | Some err => ret (inr err)
       | None => Client_ReadDir client path
       end;
     Client_Mkdir := Client_Mkdir;
     File_Write := File_Write;
     Buffer_ReadFrom := Buffer_ReadFrom;
     File_Close := File_Close |}.

(** ** Vocabulary of the statements *)

(** The path of an entry below the root of a walk: every name on the way
    down, each after a ["/"]. *)
Definition relPath (names : list string) : string :=
  fold_left (fun acc n => (acc ++ "/") ++ n) names "".



(** No listing in the log has failed. *)
Definition clean (log : list event) : Prop :=
  forall p e, ~ In (EvReadDir p (inr e)) log.

(** The accumulated prefixes ["/a"], ["/a/b"], ["/a/b/c"] of the segments
    [a], [b], [c], continuing from [currentPath]. *)
Fixpoint prefixes (currentPath : string) (segs : list string) : list string :=
  match segs with
  | [] => []
  | s :: segs' =>
      let p := currentPath ++ ("/" ++ s) in p :: prefixes p segs'
  end.

(** The state machine of section 4.3 of the specification, as the calls it
    allows on the prefixes still pending: a prefix is probed; when the
    probe succeeds it is skipped, when the probe fails it is created; a
    creation that fails ends the run with that error, and the run succeeds
    when no prefix is left. *)
Inductive ensure_path_run : list string -> list event -> option error -> Prop :=
| run_done :
    ensure_path_run [] [] None
| run_exists (q : string) (qs : list string) (fi : os.FileInfo)
    (t : list event) (r : option error) :
    ensure_path_run qs t r ->
    ensure_path_run (q :: qs) (EvStat q (inl fi) :: t) r
| run_created (q : string) (qs : list string) (e : error)
    (t : list event) (r : option error) :
    ensure_path_run qs t r ->
    ensure_path_run (q :: qs) (EvStat q (inr e) :: EvMkdir q None :: t) r
| run_failed (q : string) (qs : list string) (e err : error) :
    ensure_path_run (q :: qs) [EvStat q (inr e); EvMkdir q (Some err)] (Some err).

(** A path made of slashes only (the empty path among them). *)
Fixpoint only_slashes (path : string) : bool :=
  match path with
  | EmptyString => true
  | String ch rest => Ascii.eqb ch "/" && only_slashes rest
  end.

(** The calls that open and close a session. *)
Definition session_event (ev : event) : Prop :=
  match ev with
  | EvDial _ _ _ _ | EvNewClient _ | EvClientClose => True
  | _ => False
  end.

(** The calls that read: the session calls, [Open], [ReadFrom] and the
    closing of a file. *)
Definition reading_event (ev : event) : Prop :=
  match ev with
  | EvDial _ _ _ _ | EvNewClient _ | EvClientClose
  | EvOpen _ _ | EvReadFrom _ _ | EvFileClose => True
  | _ => False
  end.

(** ** Vocabulary of the further statements *)

(** The first call of every method: [ssh.Dial] on ["tcp"], the address
    [IPAddress:Port], the user and the password of the client, and no check
    of the host key. *)
Definition dial_event (c : SFTPClient) (err : option error) : event :=
  EvDial "tcp" ((IPAddress c ++ ":") ++ Port c)
    {| ssh.User := Username c;
       ssh.Auth := [ssh.Password (Password c)];
       ssh.HostKeyCallback := ssh.InsecureIgnoreHostKey |} err.

(** [one_session c allowed log r]: the calls [log] of a method that returned
    the error [r] are those of one session at most.  Either the dialling
    failed, or the client could not be made, and that error is [r] and
    nothing else was called; or the session was opened, closed by the last
    call, and every call in between is one of [allowed]. *)
Inductive one_session (c : SFTPClient) (allowed : event -> Prop)
  : list event -> option error -> Prop :=
| session_refused (e : error) :
    one_session c allowed [dial_event c (Some e)] (Some e)
| session_no_client (e : error) :
    one_session c allowed [dial_event c None; EvNewClient (Some e)] (Some e)
| session_closed (body : list event) (r : option error) :
    Forall allowed body ->
    one_session c allowed
      (dial_event c None :: EvNewClient None :: body ++ [EvClientClose]) r.

(** The calls each method may make inside its session. *)
Definition append_event (ev : event) : Prop :=
  match ev with
  | EvStat _ _ | EvOpenFile _ _ _ | EvCreate _ _ | EvWrite _ _ | EvFileClose => True
  | _ => False
  end.

Definition overwrite_event (ev : event) : Prop :=
  match ev with
  | EvCreate _ _ | EvWrite _ _ | EvFileClose => True
  | _ => False
  end.

Definition read_event (ev : event) : Prop :=
  match ev with
  | EvOpen _ _ | EvReadFrom _ _ | EvFileClose => True
  | _ => False
  end.

Definition listing_event (ev : event) : Prop :=
  match ev with
  | EvReadDir _ _ => True
  | _ => False
  end.

Definition directory_event (ev : event) : Prop :=
  match ev with
  | EvStat _ _ | EvMkdir _ _ => True
  | _ => False
  end.

(** A file was opened: [Create], [OpenFile] or [Open] answered a handle. *)
Definition opens_file (ev : event) : bool :=
  match ev with
  | EvCreate _ None | EvOpenFile _ _ None | EvOpen _ None => true
  | _ => false
  end.

Definition closes_file (ev : event) : bool :=
  match ev with
  | EvFileClose => true
  | _ => false
  end.

(** The error of what [ListAllFiles] returned ([None] also when the fuel
    ran out). *)
Definition listing_error (res : option (list fileInfo * option error))
  : option error :=
  match res with
  | Some (_, err) => err
  | None => None
  end.

(** [CreateDirectoryIfNotExist] on each path in turn, a session each, up to
    the first error. *)
Fixpoint ensure_each {W Conn Client File : Type}
    {R : RemoteFilesystem W Conn Client File}
    (c : SFTPClient) (paths : list string) : M W (option error) :=
  match paths with
  | [] => ret None
  | q :: paths' =>
      r <- CreateDirectoryIfNotExist c q ;;
      match r with
      | Some err => ret (Some err)
      | None => ensure_each c paths'
      end
  end.

(** The records of the regular files of a tree, depth first, each directory
    in the order of its entries; [prefix] is the path of the tree below the
    root of the walk. *)
Fixpoint tree_records (prefix : string) (n : MemFS.node) : list fileInfo :=
  match n with
  | MemFS.File _ _ _ => []
  | MemFS.Dir _ _ es =>
      (fix each (l : list (string * MemFS.node)) : list fileInfo :=
         match l with
         | [] => []
         | (k, child) :: l' =>
             (match child with
              | MemFS.File _ _ _ => [newFile prefix (MemFS.info k child)]
              | MemFS.Dir _ _ _ => tree_records ((prefix ++ "/") ++ k) child
              end ++ each l')%list
         end) es
  end.

(** A remote side that answers as [R], except that reading a file stops
    after [n] bytes with the error [err]. *)
Definition CutReads {W Conn Client File : Type} (n : nat) (err : error)
    (R : RemoteFilesystem W Conn Client File)
  : RemoteFilesystem W Conn Client File :=
  {| ssh_Dial := ssh_Dial;
     sftp_NewClient := sftp_NewClient;
     Client_Close := Client_Close;
     Client_Stat := Client_Stat;
     Client_OpenFile := Client_OpenFile;
     Client_Create := Client_Create;
     Client_Open := Client_Open;
     Client_ReadDir := Client_ReadDir;
     Client_Mkdir := Client_Mkdir;
     File_Write := File_Write;
     Buffer_ReadFrom f :=
       b <- Buffer_ReadFrom f ;; ret (firstn n (fst b), Some err);
     File_Close := File_Close |}.

(** The error a call answered with, the probe apart: the methods read a
    [Stat] that fails as "not there".  The closing calls answer nothing
    that the methods look at. *)
Definition reported (ev : event) : option error :=
  match ev with
  | EvDial _ _ _ err | EvNewClient err | EvOpenFile _ _ err | EvCreate _ err
  | EvOpen _ err | EvMkdir _ err | EvWrite _ err | EvReadFrom _ err => err
  | EvReadDir _ r => failure r
  | EvStat _ _ | EvClientClose | EvFileClose => None
  end.

(** The errors of the calls of a log, oldest first. *)
Definition reported_errors (log : list event) : list error :=
  flat_map (fun ev => match reported ev with
                      | Some e => [e]
                      | None => []
                      end) log.

Definition returned (r : option error) : list error :=
  match r with
  | Some e => [e]
  | None => []
  end.

(** ** Sample data *)

Definition alice : SFTPClient :=
  {| Username := "alice"; Password := "s3cret";
     IPAddress := "10.0.0.7"; Port := "22" |}.

(** [/root/f1], [/root/sub/f2], an empty directory [/root/empty] and a file
    [/notes] holding ["X"]. *)
Definition sample : MemFS.server :=
  {| MemFS.addr := "10.0.0.7:22"; MemFS.user := "alice"; MemFS.secret := "s3cret";
     MemFS.root :=
       MemFS.Dir 493 0
         [("root", MemFS.Dir 493 0
                     [("f1", MemFS.File 420 7 (bytes_of_string "one"));
                      ("sub", MemFS.Dir 493 0
                                [("f2", MemFS.File 420 9 (bytes_of_string "two"))]);
                      ("empty", MemFS.Dir 493 0 [])]);
          ("notes", MemFS.File 420 3 (bytes_of_string "X"))] |}.

(** A drop box: the sample server behind a front that refuses every
    [Stat]. *)
Definition dropbox : RemoteFilesystem MemFS.server unit unit MemFS.handle :=
  Deny (fun _ => Some (RemoteOperationError "permission denied"))
       (fun _ => None) MemFS.Remote.

(** The sample server with the listing of [/root/sub] refused. *)
Definition guarded : RemoteFilesystem MemFS.server unit unit MemFS.handle :=
  Deny (fun _ => None)
       (fun p => if (p =? "/root/sub")%string
                 then Some (RemoteOperationError "permission denied")
                 else None)
       MemFS.Remote.

(** * Theorems *)

(** ** The definitions on small inputs *)

Example Split_examples :
  strings.Split "/a//b/" "/" = [""; "a"; ""; "b"; ""]
  /\ strings.Split "" "/" = [""]
  /\ strings.Split "abc" "/" = ["abc"].
Proof. repeat split. Qed.

Example prefixes_abc :
  prefixes "" (components "/a/b/c") = ["/a"; "/a/b"; "/a/b/c"].
Proof. reflexivity. Qed.

Example relPath_sub_f2 : relPath ["sub"; "f2"] = "/sub/f2".
Proof. reflexivity. Qed.

Example sample_lookup :
  MemFS.contents sample "/root/sub/f2" = Some (bytes_of_string "two")
  /\ MemFS.exists_at sample "root//sub/" = true
  /\ MemFS.exists_at sample "/root/none" = false.
Proof. repeat split. Qed.

Example sample_well_formed : MemFS.well_formed (MemFS.root sample).
Proof. cbn. repeat constructor; cbn; intuition discriminate. Qed.

Example sample_ListOfFilesDir :
  map os.Name (fst (snd (ListOfFilesDir (R := MemFS.Remote) alice "/root" sample)))
  = ["f1"; "sub"; "empty"].
Proof. reflexivity. Qed.

(** ** Strings *)


Lemma append_assoc (a b c : string) : (a ++ b) ++ c = a ++ (b ++ c).
Proof. induction a as [|ch a IH]; simpl; [reflexivity | now rewrite IH]. Qed.



Lemma bytes_of_string_app (a b : string) :
  bytes_of_string (a ++ b) = (bytes_of_string a ++ bytes_of_string b)%list.
Proof.
  unfold bytes_of_string, list_byte_of_string.
  induction a as [|ch a IH]; simpl; [reflexivity | now rewrite IH].
Qed.




(** ** Running the calls *)

Lemma bind_run {W A B : Type} (m : M W A) (k : A -> M W B) (w : W) :
  bind m k w = let (w', a) := m w in k a w'.
Proof. reflexivity. Qed.

(** Takes the next library call apart: its new world and its answer. *)
Ltac call :=
  first
    [ match goal with
      | |- context [match ?r with inl _ => _ | inr _ => _ end] => is_var r; destruct r
      | |- context [match ?r with Some _ => _ | None => _ end] => is_var r; destruct r
      | |- context [match ?r with (_, _) => _ end] => is_var r; destruct r
      end
    | match goal with
      | |- context [let (_, _) := ?m in _] =>
          lazymatch m with
          | context [let (_, _) := _ in _] => fail
          | _ => destruct m as [? ?] eqn:?
          end
      end ];
  cbn beta iota; cbn [fst snd app failure].

Ltac run_package :=
  unfold ReadFile, AppendToFile, OverwriteFile, ListOfFilesDir, ListAllFiles,
    CreateDirectoryIfNotExist, CreateDirectoryRecursively, connect,
    defer, bind, ret; cbn [Logged ssh_Dial sftp_NewClient Client_Close
    Client_Stat Client_OpenFile Client_Create Client_Open Client_ReadDir
    Client_Mkdir File_Write Buffer_ReadFrom File_Close];
  unfold logged; cbn [fst snd app].

(** ** The in-memory server: sessions and reads *)

Lemma MemFS_connect (c : SFTPClient) (w : MemFS.server) :
  connect (R := MemFS.Remote) c w =
  (w, if MemFS.accepts w c then inl tt
      else inr (ConnectionError "ssh: handshake failed")).
Proof.
  unfold connect, bind, ret, MemFS.accepts. cbn [ssh_Dial sftp_NewClient MemFS.Remote].
  unfold MemFS.dial, MemFS.has_password. cbn.
  rewrite orb_false_r.
  destruct ((((IPAddress c ++ ":") ++ Port c =? MemFS.addr w)
             && (Username c =? MemFS.user w)
             && (Password c =? MemFS.secret w))%string); reflexivity.
Qed.

Lemma MemFS_open_world (path : string) (w : MemFS.server) :
  fst (MemFS.openFile path os.O_RDONLY w) = w.
Proof.
  unfold MemFS.openFile. cbn.
  destruct (MemFS.lookup (MemFS.segments path) (MemFS.root w)) as [[? ? ?|? ? ?]|];
    reflexivity.
Qed.

Lemma MemFS_readFrom_world (h : MemFS.handle) (w : MemFS.server) :
  fst (MemFS.readFrom h w) = w.
Proof.
  unfold MemFS.readFrom.
  destruct (MemFS.readable (MemFS.h_flags h)); [|reflexivity].
  destruct (MemFS.lookup _ _) as [[? ? ?|? ? ?]|]; reflexivity.
Qed.

(** ** ReadFile *)

(** C10: whatever the remote side, the calls of [ReadFile] are the session
    calls, one [Open], one [ReadFrom] and the closing of the file, and
    nothing that creates, truncates or writes; on the in-memory server the
    state after the call is the state before it, whether the call
    succeeded or failed. *)
Theorem ReadFile_frame (c : SFTPClient) (filePath : string) :
  (forall (W Conn Client File : Type) (R : RemoteFilesystem W Conn Client File)
          (w : W),
      Forall reading_event
             (snd (fst (ReadFile (R := Logged R) c filePath (w, [])))))
  /\ (forall w : MemFS.server,
         fst (ReadFile (R := MemFS.Remote) c filePath w) = w).
Proof.
  split.
  - intros. run_package. repeat call.
    all: repeat (apply Forall_cons; [exact I|]); apply Forall_nil.
  - intros w. unfold ReadFile. unfold bind at 1. rewrite MemFS_connect.
    destruct (MemFS.accepts w c); [|reflexivity].
    unfold defer, bind, ret. cbn [Client_Open Buffer_ReadFrom File_Close Client_Close MemFS.Remote].
    pose proof (MemFS_open_world filePath w) as Ho.
    destruct (MemFS.openFile filePath os.O_RDONLY w) as [w1 [h|e]]; cbn in Ho; subst w1;
      [|reflexivity].
    pose proof (MemFS_readFrom_world h w) as Hr.
    destruct (MemFS.readFrom h w) as [w2 [buf [e|]]]; cbn in Hr; subst w2; reflexivity.
Qed.

(** ** AppendToFile after a failed probe *)

(** Picks the entry of a short log that an [In] hypothesis names. *)
Ltac pick_event H :=
  cbn [In] in H;
  repeat match type of H with
         | _ \/ _ => destruct H as [H|H]
         end;
  try discriminate H; try contradiction H.

(** C8: whatever the remote side and whatever error the probe of
    [filePath] answers, [AppendToFile] goes on as for a missing file: it
    calls [Create] on [filePath], writes the bytes of [data] to the new
    handle, never opens the file for appending, and returns the error of
    [Create] or of [Write], if any; and behind a front that refuses the
    probe of [filePath], with any error, [AppendToFile] is [OverwriteFile]
    on the remote side itself: the same state afterwards, the same
    result. *)
Theorem AppendToFile_failed_probe_creates
    (c : SFTPClient) (filePath data : string) :
  (forall (W Conn Client File : Type) (R : RemoteFilesystem W Conn Client File)
          (w w' : W) (log : list event) (r : option error) (e : error),
      AppendToFile (R := Logged R) c filePath data (w, []) = ((w', log), r) ->
      In (EvStat filePath (inr e)) log ->
      exists addr config created,
        log = ([EvDial "tcp" addr config None; EvNewClient None;
                EvStat filePath (inr e); EvCreate filePath created]
               ++ match created with
                  | Some _ => []
                  | None => [EvWrite (bytes_of_string data) r; EvFileClose]
                  end
               ++ [EvClientClose])%list
        /\ (forall err, created = Some err -> r = Some err))
  /\ (forall (W Conn Client File : Type) (R : RemoteFilesystem W Conn Client File)
             (no_stat no_list : string -> option error) (e : error) (w : W),
         no_stat filePath = Some e ->
         AppendToFile (R := Deny no_stat no_list R) c filePath data w
         = OverwriteFile (R := R) c filePath data w).
Proof.
  split.
  - intros W Conn Client File R w w' log r e. revert w' log r.
    run_package. repeat call.
    all: intros w' log r H Hin; inversion H; subst; clear H; pick_event Hin.
    all: inversion Hin; subst.
    all: first
           [ do 2 eexists; exists None; split;
             [reflexivity | intros err E; discriminate E]
           | do 2 eexists; eexists (Some _); split;
             [reflexivity | intros err E; congruence] ].
  - intros W Conn Client File R no_stat no_list e w He.
    unfold AppendToFile, OverwriteFile.
    change (connect (R := Deny no_stat no_list R) c) with (connect (R := R) c).
    rewrite !bind_run. destruct (connect c w) as [w1 [client|err]]; [|reflexivity].
    unfold defer. rewrite !bind_run. cbn [Client_Stat Deny]. rewrite He.
    reflexivity.
Qed.

(** ** The walk of ListAllFiles *)


Section Walk.

Context {W Conn Client File : Type}.
Variable R : RemoteFilesystem W Conn Client File.

Lemma clean_snoc (log : list event) (ev : event) :
  clean log -> (forall p e, ev <> EvReadDir p (inr e)) -> clean (log ++ [ev]).
Proof.
  intros Hc Hev p e Hin. apply in_app_or in Hin as [Hin|[Hin|[]]].
  - exact (Hc p e Hin).
  - exact (Hev p e Hin).
Qed.

(** A listing that fails is the last thing the walk does, and its error
    is what the walk returns. *)
Lemma walk_failure (fuel : nat) :
  forall dirPath prefix client acc w log w' log' acc' out,
    listAllFilesRecursive (R := Logged R) fuel dirPath prefix client acc (w, log)
    = ((w', log'), (acc', out)) ->
    clean log ->
    forall p e, In (EvReadDir p (inr e)) log' -> out = Some (Some e).
Proof.
  induction fuel as [|fuel IH]; intros dirPath prefix client acc w log w' log' acc' out.
  - cbn. intros H Hc p e Hin. inversion H; subst. destruct (Hc p e Hin).
  - cbn [listAllFilesRecursive]. unfold bind at 1.
    cbn [Client_ReadDir Logged]. unfold logged at 1. cbn [fst snd].
    destruct (Client_ReadDir client dirPath w) as [w1 [files|err]].
    + intros H Hc.
      assert (Hc1 : clean (log ++ [EvReadDir dirPath (inl files)])).
      { apply clean_snoc; [exact Hc | intros; discriminate]. }
      revert H Hc1. generalize (log ++ [EvReadDir dirPath (inl files)])%list.
      clear Hc. revert acc w1.
      induction files as [|f files IHf]; intros acc w1 log1 H Hc1 p e Hin.
      * inversion H; subst. destruct (Hc1 p e Hin).
      * destruct (os.IsDir f) eqn:Ed.
        -- unfold bind in H at 1.
           destruct (listAllFilesRecursive fuel ((dirPath ++ "/") ++ os.Name f)
                       ((prefix ++ "/") ++ os.Name f) client acc (w1, log1))
             as [[w2 log2] [acc2 out2]] eqn:Er.
           pose proof (IH _ _ _ _ _ _ _ _ _ _ Er Hc1) as Hrec.
           destruct out2 as [[err|]|].
           ++ inversion H; subst. exact (Hrec p e Hin).
           ++ refine (IHf acc2 w2 log2 H _ p e Hin).
              intros p0 e0 Hin0. specialize (Hrec p0 e0 Hin0). discriminate.
           ++ inversion H; subst. exact (Hrec p e Hin).
        -- exact (IHf _ _ _ H Hc1 p e Hin).
    + intros H Hc p e Hin. inversion H; subst.
      apply in_app_or in Hin as [Hin|[Hin|[]]].
      * destruct (Hc p e Hin).
      * inversion Hin; reflexivity.
Qed.



End Walk.

(** ** ListAllFiles *)


(** C5: when a listing fails anywhere in the walk of [ListAllFiles], the
    call returns: the error it returns is the error of that listing, and
    the slice it returns is [nil], whatever had been collected. *)
Theorem ListAllFiles_failure_no_partial_list
    {W Conn Client File : Type} (R : RemoteFilesystem W Conn Client File)
    (c : SFTPClient) (fuel : nat) (dirPath : string)
    (w w' : W) (log : list event) (res : option (list fileInfo * option error))
    (p : string) (e : error) :
  ListAllFiles (R := Logged R) c fuel dirPath (w, []) = ((w', log), res) ->
  In (EvReadDir p (inr e)) log ->
  res = Some ([], Some e).
Proof.
  run_package.
  destruct (ssh_Dial _ _ _ w) as [w0 [conn|e0]]; cbn [fst snd app];
    [|intros H Hin; inversion H; subst; pick_event Hin].
  destruct (sftp_NewClient conn w0) as [w1 [client|e1]]; cbn [fst snd app];
    [|intros H Hin; inversion H; subst; pick_event Hin].
  destruct (listAllFilesRecursive fuel dirPath "" client [] _)
    as [[w2 log2] [acc out]] eqn:Ew.
  pose proof (walk_failure R fuel _ _ _ _ _ _ _ _ _ _ Ew) as Hfail.
  assert (Hc : clean [EvDial "tcp" ((IPAddress c ++ ":") ++ Port c)
                        {| ssh.User := Username c;
                           ssh.Auth := [ssh.Password (Password c)];
                           ssh.HostKeyCallback := ssh.InsecureIgnoreHostKey |} None;
                      EvNewClient None]).
  { intros p0 e0 Hin0. pick_event Hin0. }
  specialize (Hfail Hc p e).
  destruct out as [[e2|]|]; cbn [fst snd];
    destruct (Client_Close client w2) as [w3 o];
    intros H Hin; inversion H; subst;
    apply in_app_or in Hin as [Hin|Hin]; try pick_event Hin;
    specialize (Hfail Hin); congruence.
Qed.

(** C7: [ListAllFiles] on a directory that exists and has no entries
    returns (one unit of fuel is enough) the empty slice and no error:
    whatever the remote side, when the session opens and the listing of
    [dirPath] answers with no entries; and on the in-memory server, for a
    client it lets in and a path that resolves to a directory without
    entries, where the server is also left as it was. *)
Theorem ListAllFiles_empty_directory
    (c : SFTPClient) (fuel : nat) (dirPath : string) :
  (forall (W Conn Client File : Type) (R : RemoteFilesystem W Conn Client File)
          (w w1 w2 w3 : W) (conn : Conn) (client : Client),
      ssh_Dial "tcp" ((IPAddress c ++ ":") ++ Port c)
        {| ssh.User := Username c;
           ssh.Auth := [ssh.Password (Password c)];
           ssh.HostKeyCallback := ssh.InsecureIgnoreHostKey |} w = (w1, inl conn) ->
      sftp_NewClient conn w1 = (w2, inl client) ->
      Client_ReadDir client dirPath w2 = (w3, inl []) ->
      ListAllFiles c (S fuel) dirPath w
      = (fst (Client_Close client w3), Some ([], None)))
  /\ (forall (w : MemFS.server) (perm mtime : Z),
         MemFS.accepts w c = true ->
         MemFS.lookup (MemFS.segments dirPath) (MemFS.root w)
         = Some (MemFS.Dir perm mtime []) ->
         ListAllFiles (R := MemFS.Remote) c (S fuel) dirPath w
         = (w, Some ([], None))).
Proof.
  split.
  - intros W Conn Client File R w w1 w2 w3 conn client Hd Hn Hl.
    unfold ListAllFiles, connect, defer. rewrite !bind_run, Hd.
    rewrite bind_run, Hn. unfold ret at 1. rewrite !bind_run.
    cbn [listAllFilesRecursive]. rewrite bind_run, Hl.
    unfold ret. rewrite bind_run. destruct (Client_Close client w3); reflexivity.
  - intros w perm mtime Hc Hdir. unfold ListAllFiles. unfold bind at 1.
    rewrite MemFS_connect, Hc. unfold defer, bind.
    cbn [listAllFilesRecursive Client_ReadDir MemFS.Remote]. unfold bind.
    unfold MemFS.readDir. rewrite Hdir. reflexivity.
Qed.

(** ** Splitting a path *)

Lemma Split_not_nil (s : string) (sep : ascii) : strings.Split s sep <> [].
Proof.
  destruct s as [|ch s]; cbn; [discriminate|].
  destruct (Ascii.eqb ch sep); [discriminate|].
  destruct (strings.Split s sep); discriminate.
Qed.

Lemma Split_app (a b : string) (sep : ascii) :
  strings.Split (a ++ String sep b) sep
  = (strings.Split a sep ++ strings.Split b sep)%list.
Proof.
  induction a as [|ch a IH]; cbn.
  - now rewrite Ascii.eqb_refl.
  - rewrite IH. destruct (Ascii.eqb ch sep); [reflexivity|].
    pose proof (Split_not_nil a sep) as Hne.
    destruct (strings.Split a sep); [contradiction | reflexivity].
Qed.

Lemma components_app (a b : string) :
  components (a ++ "/" ++ b) = (components a ++ components b)%list.
Proof. unfold components. cbn [append]. now rewrite Split_app, filter_app. Qed.

Lemma components_only_slashes (path : string) :
  only_slashes path = true -> components path = [].
Proof.
  unfold components. induction path as [|ch path IH]; cbn; [reflexivity|].
  intros H. apply andb_prop in H as [Hch Hrest]. rewrite Hch. cbn. auto.
Qed.

(** ** The loop of CreateDirectoryRecursively *)

Section Components.

Context {W Conn Client File : Type}.
Variable R : RemoteFilesystem W Conn Client File.

(** Only the non-empty components reach the loop body. *)
Lemma createComponents_filter (client : Client) (comps : list string) :
  forall currentPath w,
    createComponents client comps currentPath w
    = createComponents client
        (filter (fun s => negb (s =? "")%string) comps) currentPath w.
Proof.
  induction comps as [|s comps IH]; intros cur w; [reflexivity|].
  cbn [createComponents filter].
  destruct (s =? "")%string eqn:Es; cbn [negb]; [apply IH|].
  cbn [createComponents]. rewrite Es. unfold bind.
  destruct (Client_Stat client (cur ++ "/" ++ s) w) as [w1 [fi|e]]; [apply IH|].
  destruct (Client_Mkdir client (cur ++ "/" ++ s) w1) as [w2 [err|]];
    [reflexivity | apply IH].
Qed.

Lemma CreateDirectoryRecursively_components (c : SFTPClient) (p q : string) (w : W) :
  components p = components q ->
  CreateDirectoryRecursively c p w = CreateDirectoryRecursively c q w.
Proof.
  intros E. unfold CreateDirectoryRecursively, bind, defer, bind.
  destruct (connect c w) as [w1 [client|err]]; [|reflexivity].
  rewrite (createComponents_filter client (strings.Split p "/")).
  rewrite (createComponents_filter client (strings.Split q "/")).
  unfold components in E. now rewrite E.
Qed.

(** The calls of the loop follow the state machine, prefix by prefix. *)
Lemma createComponents_run (client : Client) (comps : list string) :
  forall currentPath w log w' log' r,
    createComponents (R := Logged R) client comps currentPath (w, log)
    = ((w', log'), r) ->
    exists t, (log' = log ++ t)%list
              /\ ensure_path_run
                   (prefixes currentPath
                      (filter (fun s => negb (s =? "")%string) comps)) t r.
Proof.
  induction comps as [|s comps IH]; intros cur w log w' log' r.
  - cbn. intros H. inversion H; subst. exists []. split.
    + now rewrite app_nil_r.
    + constructor.
  - cbn [createComponents filter].
    destruct (s =? "")%string eqn:Es; cbn [negb]; [apply IH|].
    cbn [prefixes]. unfold bind. cbn [Client_Stat Client_Mkdir Logged].
    unfold logged. cbn [fst snd].
    destruct (Client_Stat client (cur ++ "/" ++ s) w) as [w1 [fi|e]];
      cbn [fst snd].
    + intros H. apply IH in H as [t [E Hrun]]. subst log'.
      exists (EvStat (cur ++ "/" ++ s) (inl fi) :: t). split.
      * now rewrite <- app_assoc.
      * now constructor.
    + destruct (Client_Mkdir client (cur ++ "/" ++ s) w1) as [w2 [err|]];
        cbn [fst snd].
      * intros H. inversion H; subst.
        exists [EvStat (cur ++ "/" ++ s) (inr e);
                EvMkdir (cur ++ "/" ++ s) (Some err)]. split.
        -- now rewrite <- app_assoc.
        -- apply run_failed.
      * intros H. apply IH in H as [t [E Hrun]]. subst log'.
        exists (EvStat (cur ++ "/" ++ s) (inr e)
                :: EvMkdir (cur ++ "/" ++ s) None :: t). split.
        -- now rewrite <- !app_assoc.
        -- now constructor.
Qed.

End Components.

(** What the state machine allows: a creation is attempted on exactly the
    prefixes whose probe failed, and only prefixes are probed. *)
Lemma ensure_path_run_creates (qs : list string) (t : list event) (r : option error) :
  ensure_path_run qs t r ->
  forall q,
    ((exists o, In (EvMkdir q o) t) <-> (exists e, In (EvStat q (inr e)) t))
    /\ ((exists a, In (EvStat q a) t) -> In q qs).
Proof.
  induction 1 as [|q0 qs fi t r _ IH|q0 qs e t r _ IH|q0 qs e err]; intros q.
  - split; [split; intros [x []] | intros [x []]].
  - destruct (IH q) as [[I1 I2] I3]. split; [split|].
    + intros [o [Hin|Hin]]; [discriminate|].
      destruct (I1 (ex_intro _ o Hin)) as [e He]. exists e. now right.
    + intros [e [Hin|Hin]]; [discriminate|].
      destruct (I2 (ex_intro _ e Hin)) as [o Ho]. exists o. now right.
    + intros [a [Hin|Hin]]; [inversion Hin; now left | right; eauto].
  - destruct (IH q) as [[I1 I2] I3]. split; [split|].
    + intros [o [Hin|[Hin|Hin]]]; [discriminate | |].
      * inversion Hin; subst. exists e. now left.
      * destruct (I1 (ex_intro _ o Hin)) as [e' He]. exists e'. now right; right.
    + intros [e' [Hin|[Hin|Hin]]]; [| discriminate |].
      * inversion Hin; subst. exists None. right. now left.
      * destruct (I2 (ex_intro _ e' Hin)) as [o Ho]. exists o. now right; right.
    + intros [a [Hin|[Hin|Hin]]]; [inversion Hin; now left | discriminate | right; eauto].
  - split; [split|].
    + intros [o Hin]. pick_event Hin. inversion Hin; subst. exists e. now left.
    + intros [e' Hin]. pick_event Hin. inversion Hin; subst.
      exists (Some err). right. now left.
    + intros [a Hin]. pick_event Hin. inversion Hin. now left.
Qed.

(** ** The in-memory server: updates *)

Lemma MemFS_find_replace_same (s : string) (v : MemFS.node) (es : list (string * MemFS.node)) :
  MemFS.find s es <> None -> MemFS.find s (MemFS.replace s v es) = Some v.
Proof.
  induction es as [|[k v0] es IH]; cbn; [congruence|].
  destruct (k =? s)%string eqn:E; cbn; rewrite E; auto.
Qed.

Lemma MemFS_find_replace_other (s s2 : string) (v : MemFS.node)
    (es : list (string * MemFS.node)) :
  s2 <> s -> MemFS.find s2 (MemFS.replace s v es) = MemFS.find s2 es.
Proof.
  intros Hne. induction es as [|[k v0] es IH]; cbn; [reflexivity|].
  destruct (k =? s)%string eqn:E; cbn.
  - apply String.eqb_eq in E. subst k.
    destruct (s =? s2)%string eqn:E2; [|reflexivity].
    apply String.eqb_eq in E2. congruence.
  - now rewrite IH.
Qed.

Lemma MemFS_find_app_new (s : string) (v : MemFS.node) (es : list (string * MemFS.node)) :
  MemFS.find s es = None -> MemFS.find s (es ++ [(s, v)]) = Some v.
Proof.
  induction es as [|[k v0] es IH]; cbn.
  - now rewrite String.eqb_refl.
  - destruct (k =? s)%string; [discriminate | exact IH].
Qed.

Lemma MemFS_find_app_old (s : string) (c : MemFS.node) (es l : list (string * MemFS.node)) :
  MemFS.find s es = Some c -> MemFS.find s (es ++ l) = Some c.
Proof.
  induction es as [|[k v0] es IH]; cbn; [discriminate|].
  destruct (k =? s)%string; auto.
Qed.

Lemma MemFS_find_app_none (s s2 : string) (c : MemFS.node)
    (es : list (string * MemFS.node)) :
  MemFS.find s2 es = None ->
  MemFS.find s2 (es ++ [(s, c)]) = if (s =? s2)%string then Some c else None.
Proof.
  induction es as [|[k v] es IH]; cbn; [reflexivity|].
  destruct (k =? s2)%string; [discriminate | exact IH].
Qed.

(** After a successful [alter], the path holds what [f] made of the node
    that was there. *)
Lemma MemFS_lookup_alter (f : option MemFS.node -> result MemFS.node) (segs : list string) :
  forall n n',
    MemFS.alter f segs n = inl n' ->
    exists c, f (MemFS.lookup segs n) = inl c /\ MemFS.lookup segs n' = Some c.
Proof.
  induction segs as [|s segs IH]; intros n n'; cbn.
  - intros H. exists n'. auto.
  - destruct n as [p t data|p t es]; [discriminate|].
    destruct (MemFS.find s es) as [child|] eqn:Ef.
    + destruct (MemFS.alter f segs child) as [child'|err] eqn:Ea; [|discriminate].
      intros H. inversion H; subst. destruct (IH _ _ Ea) as [c [Hf Hl]].
      exists c. split; [exact Hf|]. cbn.
      rewrite MemFS_find_replace_same; [exact Hl | congruence].
    + destruct segs as [|s' segs]; [|discriminate].
      destruct (f None) as [child'|err] eqn:Ef'; [|discriminate].
      intros H. inversion H; subst. exists child'. split; [reflexivity|].
      cbn. now rewrite MemFS_find_app_new.
Qed.

(** [alter] succeeds on a path that exists when [f] accepts its node. *)
Lemma MemFS_alter_exists (f : option MemFS.node -> result MemFS.node) (segs : list string) :
  forall n x c,
    MemFS.lookup segs n = Some x -> f (Some x) = inl c ->
    exists n', MemFS.alter f segs n = inl n'.
Proof.
  induction segs as [|s segs IH]; intros n x c; cbn.
  - intros H Hf. inversion H; subst. eauto.
  - destruct n as [p t data|p t es]; [discriminate|].
    destruct (MemFS.find s es) as [child|]; [|discriminate].
    intros H Hf. destruct (IH _ _ _ H Hf) as [n' E]. rewrite E. eauto.
Qed.

(** [Stat] answers for exactly the paths that resolve. *)
Lemma MemFS_stat_exists (path : string) (w : MemFS.server) :
  MemFS.stat path w
  = (w, match MemFS.lookup (MemFS.segments path) (MemFS.root w) with
        | Some n => inl (MemFS.info (last (MemFS.segments path) "/") n)
        | None => inr NotFoundError
        end).
Proof.
  unfold MemFS.stat. destruct (MemFS.lookup _ _); reflexivity.
Qed.

(** [Create]: on success the path holds an empty regular file. *)
Lemma MemFS_create_spec (path : string) (w w1 : MemFS.server) (h : MemFS.handle) :
  Client_Create (RemoteFilesystem := MemFS.Remote) tt path w = (w1, inl h) ->
  h = {| MemFS.h_path := path;
         MemFS.h_flags := Z.lor os.O_RDWR (Z.lor os.O_CREATE os.O_TRUNC) |}
  /\ MemFS.accepts w1 = MemFS.accepts w
  /\ exists p t, MemFS.lookup (MemFS.segments path) (MemFS.root w1)
                 = Some (MemFS.File p t []).
Proof.
  cbn [Client_Create MemFS.Remote]. unfold MemFS.openFile.
  change (Z.testbit (Z.lor os.O_RDWR (Z.lor os.O_CREATE os.O_TRUNC)) 9) with true.
  change (Z.testbit (Z.lor os.O_RDWR (Z.lor os.O_CREATE os.O_TRUNC)) 6) with true.
  change (MemFS.writable (Z.lor os.O_RDWR (Z.lor os.O_CREATE os.O_TRUNC))) with true.
  cbn [andb].
  destruct (MemFS.lookup (MemFS.segments path) (MemFS.root w)) as [[p t data|p t es]|] eqn:El.
  - destruct (MemFS.alter _ _ _) as [r|err] eqn:Ea; intros H; inversion H; subst.
    apply MemFS_lookup_alter in Ea as [c [Hf Hl]]. inversion Hf; subst. cbn. eauto.
  - intros H; inversion H.
  - destruct (MemFS.alter _ _ _) as [r|err] eqn:Ea; intros H; inversion H; subst.
    apply MemFS_lookup_alter in Ea as [c [Hf Hl]]. inversion Hf; subst. cbn. eauto.
Qed.

(** [Write]: on success the file holds the new bytes, after the old ones
    under [O_APPEND] and over them from offset 0 otherwise. *)
Lemma MemFS_write_spec (h : MemFS.handle) (data : list byte) (w w1 : MemFS.server) (n : Z) :
  MemFS.write h data w = (w1, inl n) ->
  MemFS.accepts w1 = MemFS.accepts w
  /\ exists p t old,
      MemFS.lookup (MemFS.segments (MemFS.h_path h)) (MemFS.root w)
      = Some (MemFS.File p t old)
      /\ MemFS.lookup (MemFS.segments (MemFS.h_path h)) (MemFS.root w1)
         = Some (MemFS.File p t
                   (if Z.testbit (MemFS.h_flags h) 10 then old ++ data
                    else data ++ skipn (List.length data) old)%list).
Proof.
  unfold MemFS.write. destruct (MemFS.writable _); [|intros H; inversion H].
  destruct (MemFS.alter _ _ _) as [r|err] eqn:Ea; intros H; inversion H; subst.
  apply MemFS_lookup_alter in Ea as [c [Hf Hl]].
  destruct (MemFS.lookup _ (MemFS.root w)) as [[p t old|p t es]|]; try discriminate.
  inversion Hf; subst. split; [reflexivity|]. exists p, t, old. cbn. auto.
Qed.

(** [Mkdir]: on success the path holds an empty directory; on failure the
    server is as before. *)
Lemma MemFS_mkdir_spec (path : string) (w w1 : MemFS.server) (r : option error) :
  MemFS.mkdir path w = (w1, r) ->
  match r with
  | None => MemFS.accepts w1 = MemFS.accepts w
            /\ MemFS.lookup (MemFS.segments path) (MemFS.root w1)
               = Some (MemFS.Dir 493 0 [])
  | Some _ => w1 = w
  end.
Proof.
  unfold MemFS.mkdir.
  destruct (MemFS.alter _ _ _) as [root1|err] eqn:Ea; intros H; inversion H; subst;
    [|reflexivity].
  apply MemFS_lookup_alter in Ea as [c [Hf Hl]].
  destruct (MemFS.lookup _ (MemFS.root w)); [discriminate|].
  inversion Hf; subst. cbn. auto.
Qed.

(** ** The file operations on the in-memory server *)

Lemma MemFS_OverwriteFile_ok (c : SFTPClient) (filePath data : string)
    (w w1 : MemFS.server) :
  OverwriteFile (R := MemFS.Remote) c filePath data w = (w1, None) ->
  MemFS.accepts w c = true
  /\ MemFS.accepts w1 = MemFS.accepts w
  /\ MemFS.contents w1 filePath = Some (bytes_of_string data).
Proof.
  unfold OverwriteFile. unfold bind at 1. rewrite MemFS_connect.
  destruct (MemFS.accepts w c); [|intros H; inversion H].
  unfold defer, bind, ret. cbn [File_Write File_Close Client_Close MemFS.Remote].
  destruct (Client_Create tt filePath w) as [w2 [h|err]] eqn:Ec;
    [|intros H; inversion H].
  apply MemFS_create_spec in Ec as [Eh [Eacc [p [t El]]]].
  destruct (MemFS.write h (bytes_of_string data) w2) as [w3 [n|err]] eqn:Ew;
    intros H; inversion H; subst w3.
  apply MemFS_write_spec in Ew as [Eacc' [p' [t' [old [El0 El1]]]]].
  subst h. cbn [MemFS.h_path MemFS.h_flags] in *.
  rewrite El in El0. inversion El0; subst.
  change (Z.testbit (Z.lor os.O_RDWR (Z.lor os.O_CREATE os.O_TRUNC)) 10)
    with false in El1.
  rewrite skipn_nil, app_nil_r in El1.
  split; [reflexivity|]. split; [congruence|].
  unfold MemFS.contents. now rewrite El1.
Qed.

Lemma MemFS_open_spec (path : string) (w : MemFS.server) :
  Client_Open (RemoteFilesystem := MemFS.Remote) tt path w
  = (w, match MemFS.lookup (MemFS.segments path) (MemFS.root w) with
        | Some _ => inl {| MemFS.h_path := path; MemFS.h_flags := os.O_RDONLY |}
        | None => inr NotFoundError
        end).
Proof.
  cbn [Client_Open MemFS.Remote]. unfold MemFS.openFile.
  change (Z.testbit os.O_RDONLY 9) with false.
  change (Z.testbit os.O_RDONLY 6) with false.
  change (MemFS.writable os.O_RDONLY) with false. cbn [andb].
  destruct (MemFS.lookup _ _) as [[? ? ?|? ? ?]|]; reflexivity.
Qed.

Lemma MemFS_ReadFile_ok (c : SFTPClient) (filePath : string)
    (w w1 : MemFS.server) (buf : list byte) :
  ReadFile (R := MemFS.Remote) c filePath w = (w1, (buf, None)) ->
  MemFS.contents w filePath = Some buf.
Proof.
  unfold ReadFile. unfold bind at 1. rewrite MemFS_connect.
  destruct (MemFS.accepts w c); [|intros H; inversion H].
  unfold defer. unfold bind at 1 2. rewrite MemFS_open_spec.
  unfold MemFS.contents.
  destruct (MemFS.lookup (MemFS.segments filePath) (MemFS.root w))
    as [n|] eqn:El; [|intros H; inversion H].
  unfold bind, ret. cbn [Buffer_ReadFrom File_Close Client_Close MemFS.Remote].
  unfold MemFS.readFrom. cbn [MemFS.h_path MemFS.h_flags].
  change (MemFS.readable os.O_RDONLY) with true. cbn iota. rewrite El.
  destruct n as [p t data|p t es]; intros H; inversion H; reflexivity.
Qed.

(** C4: on the in-memory server, a [ReadFile] of [filePath] that succeeds
    after an [OverwriteFile] of [filePath] with [data] that succeeded
    returns the bytes of [data], all of them and nothing else. *)
Theorem ReadFile_after_OverwriteFile
    (c : SFTPClient) (filePath data : string)
    (w w1 w2 : MemFS.server) (buf : list byte) :
  OverwriteFile (R := MemFS.Remote) c filePath data w = (w1, None) ->
  ReadFile (R := MemFS.Remote) c filePath w1 = (w2, (buf, None)) ->
  buf = bytes_of_string data.
Proof.
  intros Ho Hr.
  apply MemFS_OverwriteFile_ok in Ho as (_ & _ & Hc).
  apply MemFS_ReadFile_ok in Hr. congruence.
Qed.

Lemma MemFS_write_ok (h : MemFS.handle) (data : list byte) (w : MemFS.server)
    (p t : Z) (old : list byte) :
  MemFS.writable (MemFS.h_flags h) = true ->
  MemFS.lookup (MemFS.segments (MemFS.h_path h)) (MemFS.root w)
  = Some (MemFS.File p t old) ->
  exists w1 n, MemFS.write h data w = (w1, inl n).
Proof.
  intros Hw El. unfold MemFS.write. rewrite Hw.
  edestruct (MemFS_alter_exists
               (fun o => match o with
                         | Some (MemFS.File p t old) =>
                             inl (MemFS.File p t
                                    (if Z.testbit (MemFS.h_flags h) 10
                                     then old ++ data
                                     else data ++ skipn (List.length data) old)%list)
                         | _ => inr (RemoteOperationError "bad file handle")
                         end)) as [n' E]; [exact El | reflexivity |].
  rewrite E. eauto.
Qed.

(** An accepted client can always overwrite a regular file. *)
Lemma MemFS_OverwriteFile_file (c : SFTPClient) (filePath data : string)
    (w : MemFS.server) (old : list byte) :
  MemFS.accepts w c = true ->
  MemFS.contents w filePath = Some old ->
  exists w1, OverwriteFile (R := MemFS.Remote) c filePath data w = (w1, None).
Proof.
  intros Hacc Hc. unfold MemFS.contents in Hc.
  destruct (MemFS.lookup (MemFS.segments filePath) (MemFS.root w))
    as [[p t old'|p t es]|] eqn:El; try discriminate.
  destruct (MemFS_alter_exists (fun _ => inl (MemFS.File p t []))
              (MemFS.segments filePath) (MemFS.root w) _ (MemFS.File p t [])
              El eq_refl) as [root1 Ea].
  pose proof (MemFS_lookup_alter _ _ _ _ Ea) as [c0 [Hf El1]].
  inversion Hf; subst c0.
  set (h := {| MemFS.h_path := filePath;
               MemFS.h_flags := Z.lor os.O_RDWR (Z.lor os.O_CREATE os.O_TRUNC) |}).
  destruct (MemFS_write_ok h (bytes_of_string data) (MemFS.with_root w root1) p t [])
    as [w1 [n Ew]]; [reflexivity | exact El1 |].
  exists w1. unfold OverwriteFile. rewrite bind_run, MemFS_connect, Hacc.
  unfold defer. rewrite !bind_run. cbn [Client_Create MemFS.Remote].
  unfold MemFS.openFile. rewrite El.
  change (Z.testbit (Z.lor os.O_RDWR (Z.lor os.O_CREATE os.O_TRUNC)) 9) with true.
  change (MemFS.writable (Z.lor os.O_RDWR (Z.lor os.O_CREATE os.O_TRUNC))) with true.
  cbn [andb]. rewrite Ea. fold h.
  rewrite !bind_run. cbn [File_Write File_Close Client_Close MemFS.Remote].
  rewrite Ew. reflexivity.
Qed.

(** Behind [Deny] the file operations other than the probe are those of
    the server itself. *)
Lemma Deny_OverwriteFile (no_stat no_list : string -> option error)
    (c : SFTPClient) (filePath data : string) (w : MemFS.server) :
  OverwriteFile (R := Deny no_stat no_list MemFS.Remote) c filePath data w
  = OverwriteFile (R := MemFS.Remote) c filePath data w.
Proof. reflexivity. Qed.

(** C3, as amended: on the in-memory server, also behind a front that
    refuses probes, (1) [AppendToFile] on a path that does not exist is
    [OverwriteFile]: the same state afterwards and the same result; (2) for
    a client the server lets in, [AppendToFile] of ["Y"] on a file that
    holds ["X"] and whose probe is answered succeeds and leaves the file
    holding ["XY"]; (3) once an [OverwriteFile] of the path has returned no
    error, a second one in a row returns none either, and the file then
    holds the second payload and only that. *)
Theorem AppendToFile_OverwriteFile_laws
    (no_stat no_list : string -> option error) (c : SFTPClient)
    (filePath : string) :
  (forall (data : string) (w : MemFS.server),
      MemFS.exists_at w filePath = false ->
      AppendToFile (R := Deny no_stat no_list MemFS.Remote) c filePath data w
      = OverwriteFile (R := Deny no_stat no_list MemFS.Remote) c filePath data w)
  /\ (forall (x y : string) (w : MemFS.server),
         MemFS.accepts w c = true ->
         no_stat filePath = None ->
         MemFS.contents w filePath = Some (bytes_of_string x) ->
         exists w1,
           AppendToFile (R := Deny no_stat no_list MemFS.Remote) c filePath y w
           = (w1, None)
           /\ MemFS.contents w1 filePath = Some (bytes_of_string (x ++ y)))
  /\ (forall (d1 d2 : string) (w w1 : MemFS.server),
         OverwriteFile (R := Deny no_stat no_list MemFS.Remote) c filePath d1 w
         = (w1, None) ->
         exists w2,
           OverwriteFile (R := Deny no_stat no_list MemFS.Remote) c filePath d2 w1
           = (w2, None)
           /\ MemFS.contents w2 filePath = Some (bytes_of_string d2)).
Proof.
  split; [|split].
  - intros data w Hne. unfold AppendToFile, OverwriteFile.
    change (connect (R := Deny no_stat no_list MemFS.Remote) c)
      with (connect (R := MemFS.Remote) c).
    rewrite !bind_run, MemFS_connect.
    destruct (MemFS.accepts w c); [|reflexivity].
    unfold defer. rewrite !bind_run. cbn [Client_Stat Deny MemFS.Remote].
    destruct (no_stat filePath); [reflexivity|].
    rewrite MemFS_stat_exists. unfold MemFS.exists_at in Hne.
    destruct (MemFS.lookup (MemFS.segments filePath) (MemFS.root w));
      [discriminate | reflexivity].
  - intros x y w Hacc Hprobe Hx. unfold MemFS.contents in Hx.
    destruct (MemFS.lookup (MemFS.segments filePath) (MemFS.root w))
      as [[p t old|p t es]|] eqn:El; try discriminate.
    inversion Hx; subst old.
    set (h := {| MemFS.h_path := filePath;
                 MemFS.h_flags := Z.lor os.O_APPEND os.O_WRONLY |}).
    destruct (MemFS_write_ok h (bytes_of_string y) w p t (bytes_of_string x))
      as [w1 [n Ew]]; [reflexivity | exact El |].
    exists w1. split.
    + unfold AppendToFile.
      change (connect (R := Deny no_stat no_list MemFS.Remote) c)
        with (connect (R := MemFS.Remote) c).
      unfold bind at 1. rewrite MemFS_connect, Hacc.
      unfold defer. unfold bind at 1 2. cbn [Client_Stat Deny MemFS.Remote].
      rewrite Hprobe, MemFS_stat_exists, El.
      unfold bind at 1. cbn [Client_OpenFile Deny MemFS.Remote].
      unfold MemFS.openFile. rewrite El.
      change (Z.testbit (Z.lor os.O_APPEND os.O_WRONLY) 9) with false.
      cbn [andb]. fold h. unfold bind, ret.
      cbn [File_Write File_Close Client_Close Deny MemFS.Remote].
      rewrite Ew. reflexivity.
    + apply MemFS_write_spec in Ew as [_ [p' [t' [old [El0 El1]]]]].
      cbn [MemFS.h_path MemFS.h_flags h] in El0, El1.
      rewrite El in El0. inversion El0; subst.
      change (Z.testbit (Z.lor os.O_APPEND os.O_WRONLY) 10) with true in El1.
      unfold MemFS.contents. now rewrite El1, bytes_of_string_app.
  - intros d1 d2 w w1 H1. rewrite Deny_OverwriteFile in H1.
    apply MemFS_OverwriteFile_ok in H1 as (Hacc & Eacc & Hc).
    destruct (MemFS_OverwriteFile_file c filePath d2 w1 _
                ltac:(now rewrite Eacc) Hc) as [w2 H2].
    exists w2. rewrite Deny_OverwriteFile. split; [exact H2|].
    now apply MemFS_OverwriteFile_ok in H2 as (_ & _ & Hc2).
Qed.

(** ** CreateDirectoryIfNotExist on the in-memory server *)

(** C6, as amended: on the in-memory server, (1) after a
    [CreateDirectoryIfNotExist] of [dirPath] that returned no error, a
    probe of [dirPath] answers, and it answers with a directory when
    [dirPath] was not there before; (2) the state after two calls in a row
    is the state after one, whether they fail or not. *)
Theorem CreateDirectoryIfNotExist_present_idempotent
    (c : SFTPClient) (dirPath : string) (w : MemFS.server) :
  (forall w1,
      CreateDirectoryIfNotExist (R := MemFS.Remote) c dirPath w = (w1, None) ->
      exists fi,
        Client_Stat (RemoteFilesystem := MemFS.Remote) tt dirPath w1 = (w1, inl fi)
        /\ (MemFS.exists_at w dirPath = false -> os.IsDir fi = true))
  /\ fst (CreateDirectoryIfNotExist (R := MemFS.Remote) c dirPath
            (fst (CreateDirectoryIfNotExist (R := MemFS.Remote) c dirPath w)))
     = fst (CreateDirectoryIfNotExist (R := MemFS.Remote) c dirPath w).
Proof.
  assert (Hrun : forall v : MemFS.server,
             CreateDirectoryIfNotExist (R := MemFS.Remote) c dirPath v
             = if MemFS.accepts v c then
                 match MemFS.lookup (MemFS.segments dirPath) (MemFS.root v) with
                 | Some _ => (v, None)
                 | None => MemFS.mkdir dirPath v
                 end
               else (v, Some (ConnectionError "ssh: handshake failed"))).
  { intros v. unfold CreateDirectoryIfNotExist. unfold bind at 1.
    rewrite MemFS_connect. destruct (MemFS.accepts v c); [|reflexivity].
    unfold defer. unfold bind at 1 2. cbn [Client_Stat MemFS.Remote].
    rewrite MemFS_stat_exists.
    destruct (MemFS.lookup _ _); [reflexivity|].
    unfold bind, ret. cbn [Client_Mkdir Client_Close MemFS.Remote].
    destruct (MemFS.mkdir dirPath v) as [v1 [err|]]; reflexivity. }
  split.
  - intros w1. rewrite Hrun. cbn [Client_Stat MemFS.Remote].
    rewrite MemFS_stat_exists. unfold MemFS.exists_at.
    destruct (MemFS.accepts w c); [|intros H; inversion H].
    destruct (MemFS.lookup (MemFS.segments dirPath) (MemFS.root w)) as [n|] eqn:El.
    + intros H; inversion H; subst. rewrite El. eexists. split; [reflexivity|].
      discriminate.
    + intros H. apply MemFS_mkdir_spec in H as [_ El1]. rewrite El1.
      eexists. split; reflexivity.
  - rewrite (Hrun w).
    destruct (MemFS.accepts w c) eqn:Hacc; cbn [fst].
    + destruct (MemFS.lookup (MemFS.segments dirPath) (MemFS.root w)) as [n|] eqn:El;
        cbn [fst].
      * now rewrite Hrun, Hacc, El.
      * destruct (MemFS.mkdir dirPath w) as [w1 r] eqn:Em. cbn [fst].
        pose proof (MemFS_mkdir_spec _ _ _ _ Em) as Hs.
        destruct r as [err|].
        -- subst w1. now rewrite Hrun, Hacc, El, Em.
        -- destruct Hs as [Eacc El1]. now rewrite Hrun, Eacc, Hacc, El1.
    + now rewrite Hrun, Hacc.
Qed.

(** ** CreateDirectoryRecursively *)

Lemma Split_no_slash (s : string) :
  MemFS.no_slash s = true -> strings.Split s "/" = [s].
Proof.
  induction s as [|ch s IH]; cbn; [reflexivity|].
  intros H. apply andb_prop in H as [Hch Hs].
  destruct (Ascii.eqb ch "/"); [discriminate|]. now rewrite (IH Hs).
Qed.

Lemma components_valid_name (k : string) :
  MemFS.valid_name k = true -> components k = [k].
Proof.
  unfold MemFS.valid_name, components. intros H.
  apply andb_prop in H as [Hne Hs]. rewrite (Split_no_slash _ Hs). cbn.
  now rewrite Hne.
Qed.

Lemma MemFS_segments_child (dirPath k : string) :
  MemFS.valid_name k = true ->
  MemFS.segments ((dirPath ++ "/") ++ k) = (MemFS.segments dirPath ++ [k])%list.
Proof.
  intros Hk. unfold MemFS.segments.
  now rewrite append_assoc, components_app, (components_valid_name _ Hk).
Qed.

(** An [alter] that only makes new entries keeps every path that
    resolved. *)
Lemma MemFS_alter_new_keeps (f : option MemFS.node -> result MemFS.node)
    (Hf : forall x c, f (Some x) <> inl c) (segs : list string) :
  forall n n',
    MemFS.alter f segs n = inl n' ->
    forall segs2 x, MemFS.lookup segs2 n = Some x -> MemFS.lookup segs2 n' <> None.
Proof.
  induction segs as [|s segs IH]; intros n n'; cbn.
  - intros H. destruct (Hf _ _ H).
  - destruct n as [p t data|p t es]; [discriminate|].
    destruct (MemFS.find s es) as [child|] eqn:Ef.
    + destruct (MemFS.alter f segs child) as [child'|err] eqn:Ea; [|discriminate].
      intros H. inversion H; subst. intros [|s2 rest2] x; cbn; [discriminate|].
      destruct (String.eqb_spec s2 s) as [->|Hne].
      * rewrite Ef, MemFS_find_replace_same by congruence. apply (IH _ _ Ea).
      * rewrite MemFS_find_replace_other by exact Hne.
        destruct (MemFS.find s2 es); congruence.
    + destruct segs as [|s' segs]; [|discriminate].
      destruct (f None) as [child'|err]; [|discriminate].
      intros H. inversion H; subst. intros [|s2 rest2] x; cbn; [discriminate|].
      destruct (MemFS.find s2 es) as [c2|] eqn:Ef2; [|discriminate].
      rewrite (MemFS_find_app_old _ _ _ _ Ef2). congruence.
Qed.

Lemma MemFS_mkdir_keeps (path q : string) (w w1 : MemFS.server) (r : option error) :
  MemFS.mkdir path w = (w1, r) ->
  MemFS.exists_at w q = true -> MemFS.exists_at w1 q = true.
Proof.
  unfold MemFS.mkdir, MemFS.exists_at.
  destruct (MemFS.alter _ _ _) as [root1|err] eqn:Ea; intros H; inversion H; subst;
    [|auto].
  cbn [MemFS.root MemFS.with_root].
  destruct (MemFS.lookup (MemFS.segments q) (MemFS.root w)) as [x|] eqn:El;
    [|discriminate].
  intros _.
  eapply MemFS_alter_new_keeps in Ea; [| |exact El].
  - destruct (MemFS.lookup (MemFS.segments q) root1); congruence.
  - intros [? ? ?|? ? ?] c0; discriminate.
Qed.

(** On the in-memory server the loop removes nothing, and what it created
    is there when it stops. *)
Lemma MemFS_createComponents_keeps (comps : list string) :
  forall currentPath (w : MemFS.server) log w' log' r,
    createComponents (R := Logged MemFS.Remote) tt comps currentPath (w, log)
    = ((w', log'), r) ->
    (forall q, MemFS.exists_at w q = true -> MemFS.exists_at w' q = true)
    /\ (forall q, In (EvMkdir q None) log' ->
                  In (EvMkdir q None) log \/ MemFS.exists_at w' q = true).
Proof.
  induction comps as [|s comps IH]; intros cur w log w' log' r.
  - cbn. intros H. inversion H; subst. auto.
  - cbn [createComponents]. destruct (s =? "")%string; [apply IH|].
    rewrite bind_run. cbn [Client_Stat Client_Mkdir Logged MemFS.Remote].
    unfold logged at 1. cbn [fst snd]. rewrite MemFS_stat_exists.
    destruct (MemFS.lookup (MemFS.segments (cur ++ "/" ++ s)) (MemFS.root w)) as [n|].
    + intros H. apply IH in H as [K1 K2]. split; [exact K1|].
      intros q Hq. destruct (K2 q Hq) as [Hin|Hex]; [|auto].
      apply in_app_or in Hin as [Hin|Hin]; [auto | pick_event Hin].
    + rewrite bind_run. unfold logged at 1. cbn [fst snd].
      destruct (MemFS.mkdir (cur ++ "/" ++ s) w) as [w1 [err|]] eqn:Em.
      * intros H. apply MemFS_mkdir_spec in Em. subst w1.
        inversion H; subst. split; [auto|].
        intros q Hq. apply in_app_or in Hq as [Hq|Hq]; [|pick_event Hq].
        apply in_app_or in Hq as [Hq|Hq]; [auto | pick_event Hq].
      * intros H. apply IH in H as [K1 K2].
        pose proof (fun q => MemFS_mkdir_keeps _ q _ _ _ Em) as Hkeep.
        apply MemFS_mkdir_spec in Em as [_ El].
        assert (Hnew : MemFS.exists_at w1 (cur ++ "/" ++ s) = true)
          by (unfold MemFS.exists_at; now rewrite El).
        split; [auto|].
        intros q Hq. destruct (K2 q Hq) as [Hin|Hex]; [|auto].
        apply in_app_or in Hin as [Hin|Hin].
        -- apply in_app_or in Hin as [Hin|Hin]; [auto | pick_event Hin].
        -- pick_event Hin. inversion Hin; subst q. right. apply K1. exact Hnew.
Qed.

(** The parts that [strings.Split] cuts at the slashes hold no slash. *)
Lemma Split_parts_no_slash (path : string) :
  Forall (fun s => MemFS.no_slash s = true) (strings.Split path "/").
Proof.
  induction path as [|ch path IH]; cbn.
  - repeat constructor.
  - destruct (Ascii.eqb ch "/") eqn:E.
    + constructor; [reflexivity | exact IH].
    + destruct (strings.Split path "/") as [|hd tl].
      * repeat constructor. cbn. now rewrite E.
      * inversion IH; subst. constructor; [|assumption].
        cbn. rewrite E. assumption.
Qed.

(** An [alter] that only puts an empty directory where there was nothing
    makes that one path resolve and no other. *)
Lemma MemFS_alter_dir_exists (f : option MemFS.node -> result MemFS.node)
    (Hsome : forall x c, f (Some x) <> inl c)
    (Hnone : forall c, f None = inl c -> exists p t, c = MemFS.Dir p t [])
    (segs : list string) :
  forall n n',
    MemFS.alter f segs n = inl n' ->
    forall segs2, segs2 <> segs ->
      match MemFS.lookup segs2 n' with Some _ => true | None => false end
      = match MemFS.lookup segs2 n with Some _ => true | None => false end.
Proof.
  induction segs as [|s segs IH]; intros n n'; cbn [MemFS.alter MemFS.lookup].
  - intros H. destruct (Hsome _ _ H).
  - destruct n as [p t data|p t es]; [discriminate|].
    destruct (MemFS.find s es) as [child|] eqn:Ef.
    + destruct (MemFS.alter f segs child) as [child'|err] eqn:Ea; [|discriminate].
      intros H [|s2 rest2] Hne; inversion H; subst; [reflexivity|].
      cbn [MemFS.lookup].
      destruct (String.eqb_spec s2 s) as [E|Hs].
      * subst s2. rewrite Ef, MemFS_find_replace_same by congruence.
        apply (IH _ _ Ea). congruence.
      * now rewrite MemFS_find_replace_other.
    + destruct segs as [|s' segs]; [|discriminate].
      destruct (f None) as [child'|err] eqn:Ef'; [|discriminate].
      intros H [|s2 rest2] Hne; inversion H; subst; [reflexivity|].
      cbn [MemFS.lookup].
      destruct (MemFS.find s2 es) as [c2|] eqn:Ef2.
      * now rewrite (MemFS_find_app_old _ _ _ _ Ef2).
      * rewrite (MemFS_find_app_none _ _ _ _ Ef2).
        destruct (String.eqb_spec s s2) as [E|Hs]; [|reflexivity].
        subst s2. destruct (Hnone _ eq_refl) as (p1 & t1 & ->).
        destruct rest2 as [|s3 rest3]; [congruence | reflexivity].
Qed.

Lemma MemFS_mkdir_exists_frame (path q : string) (w w1 : MemFS.server)
    (r : option error) :
  MemFS.mkdir path w = (w1, r) ->
  MemFS.segments q <> MemFS.segments path ->
  MemFS.exists_at w1 q = MemFS.exists_at w q.
Proof.
  unfold MemFS.mkdir, MemFS.exists_at. intros H Hq.
  destruct (MemFS.alter _ _ _) as [root1|err] eqn:Ea; inversion H; subst;
    [|reflexivity].
  cbn [MemFS.root MemFS.with_root].
  refine (MemFS_alter_dir_exists _ _ _ _ _ _ Ea _ Hq).
  - intros x c0 E. discriminate E.
  - intros c0 E. inversion E. eauto.
Qed.

(** On the in-memory server the probes of the loop tell what was there
    before the loop began: a probe answers on a path that was there and
    fails on a path that was not, and a creation is attempted only on a
    path that was not there.  Every path of the loop lies below
    [currentPath]. *)
Lemma MemFS_createComponents_truthful (comps : list string) :
  Forall (fun s => MemFS.no_slash s = true) comps ->
  forall currentPath (w : MemFS.server) log w' log' r,
    createComponents (R := Logged MemFS.Remote) tt comps currentPath (w, log)
    = ((w', log'), r) ->
    exists t,
      log' = (log ++ t)%list
      /\ (forall q a, In (EvStat q a) t ->
            MemFS.exists_at w q = match a with inl _ => true | inr _ => false end
            /\ exists ext, ext <> []
                 /\ MemFS.segments q = (MemFS.segments currentPath ++ ext)%list)
      /\ (forall q o, In (EvMkdir q o) t ->
            MemFS.exists_at w q = false
            /\ exists ext, ext <> []
                 /\ MemFS.segments q = (MemFS.segments currentPath ++ ext)%list).
Proof.
  induction 1 as [|s comps Hs Hrest IH]; intros cur w log w' log' r.
  - cbn. intros H. inversion H; subst. exists [].
    split; [now rewrite app_nil_r|]. split; intros ? ? [].
  - cbn [createComponents]. destruct (s =? "")%string eqn:Es; [apply IH|].
    assert (Hv : MemFS.valid_name s = true)
      by (unfold MemFS.valid_name; now rewrite Es, Hs).
    assert (Eseg : MemFS.segments (cur ++ "/" ++ s)
                   = (MemFS.segments cur ++ [s])%list)
      by (rewrite <- (MemFS_segments_child cur s Hv); now rewrite append_assoc).
    assert (Hbelow : forall q ext,
               MemFS.segments q = (MemFS.segments (cur ++ "/" ++ s) ++ ext)%list ->
               MemFS.segments q = (MemFS.segments cur ++ s :: ext)%list)
      by (intros q ext E; now rewrite E, Eseg, <- app_assoc).
    rewrite bind_run. cbn [Client_Stat Client_Mkdir Logged MemFS.Remote].
    unfold logged at 1. cbn [fst snd]. rewrite MemFS_stat_exists.
    destruct (MemFS.lookup (MemFS.segments (cur ++ "/" ++ s)) (MemFS.root w))
      as [n|] eqn:El.
    + assert (Hyes : MemFS.exists_at w (cur ++ "/" ++ s) = true)
        by (unfold MemFS.exists_at; now rewrite El).
      intros H. apply IH in H as (t & E & KS & KM).
      eexists (_ :: t). split; [rewrite E, <- app_assoc; reflexivity|]. split.
      * intros q a [Hq|Hq].
        -- inversion Hq; subst. split; [exact Hyes|].
           exists [s]. split; [discriminate | exact Eseg].
        -- destruct (KS q a Hq) as [Hex (ext & Hne & Hseg)]. split; [exact Hex|].
           exists (s :: ext). split; [discriminate | now apply Hbelow].
      * intros q o [Hq|Hq]; [discriminate Hq|].
        destruct (KM q o Hq) as [Hex (ext & Hne & Hseg)]. split; [exact Hex|].
        exists (s :: ext). split; [discriminate | now apply Hbelow].
    + assert (Hnot : MemFS.exists_at w (cur ++ "/" ++ s) = false)
        by (unfold MemFS.exists_at; now rewrite El).
      rewrite bind_run. unfold logged at 1. cbn [fst snd].
      destruct (MemFS.mkdir (cur ++ "/" ++ s) w) as [w1 [err|]] eqn:Em.
      * intros H. inversion H; subst. eexists [_; _].
        split; [now rewrite <- app_assoc|].
        split; intros q a Hq; pick_event Hq; inversion Hq; subst;
          (split; [exact Hnot | exists [s]; split; [discriminate | exact Eseg]]).
      * intros H. apply IH in H as (t & E & KS & KM).
        assert (Hframe : forall q ext,
                   ext <> [] ->
                   MemFS.segments q
                   = (MemFS.segments (cur ++ "/" ++ s) ++ ext)%list ->
                   MemFS.exists_at w1 q = MemFS.exists_at w q).
        { intros q ext Hne Hseg. apply (MemFS_mkdir_exists_frame _ _ _ _ _ Em).
          rewrite Hseg. intros Heq. apply Hne.
          apply (f_equal (@List.length string)) in Heq.
          rewrite length_app in Heq. destruct ext; [reflexivity | cbn in Heq; lia]. }
        eexists (_ :: _ :: t).
        split; [rewrite E, <- !app_assoc; reflexivity|]. split.
        -- intros q a Hq. destruct Hq as [Hq|[Hq|Hq]]; [|discriminate Hq|].
           ++ inversion Hq; subst. split; [exact Hnot|].
              exists [s]. split; [discriminate | exact Eseg].
           ++ destruct (KS q a Hq) as [Hex (ext & Hne & Hseg)].
              split; [now rewrite <- (Hframe q ext Hne Hseg)|].
              exists (s :: ext). split; [discriminate | now apply Hbelow].
        -- intros q o Hq. destruct Hq as [Hq|[Hq|Hq]]; [discriminate Hq| |].
           ++ inversion Hq; subst. split; [exact Hnot|].
              exists [s]. split; [discriminate | exact Eseg].
           ++ destruct (KM q o Hq) as [Hex (ext & Hne & Hseg)].
              split; [now rewrite <- (Hframe q ext Hne Hseg)|].
              exists (s :: ext). split; [discriminate | now apply Hbelow].
Qed.

(** A run that ends without an error has found or created every
    prefix. *)
Lemma ensure_path_run_complete (qs : list string) (t : list event)
    (r : option error) :
  ensure_path_run qs t r ->
  r = None ->
  forall q, In q qs ->
    (exists fi, In (EvStat q (inl fi)) t) \/ In (EvMkdir q None) t.
Proof.
  induction 1 as [|q0 qs fi t r Hrun IH|q0 qs e t r Hrun IH|q0 qs e err];
    intros Hr q Hq.
  - destruct Hq.
  - destruct Hq as [<-|Hq]; [left; exists fi; now left|].
    destruct (IH Hr q Hq) as [[fi' Hin]|Hin];
      [left; exists fi'; now right | right; now right].
  - destruct Hq as [<-|Hq]; [right; right; now left|].
    destruct (IH Hr q Hq) as [[fi' Hin]|Hin];
      [left; exists fi'; now do 2 right | right; now do 2 right].
  - discriminate Hr.
Qed.

(** C2, as amended: once the session is open, the calls of
    [CreateDirectoryRecursively] are those of the state machine on the
    accumulated prefixes of [dirPath], left to right: each prefix is probed
    after the one before it was found or created; a creation is attempted
    on exactly the prefixes whose probe failed; the first creation that
    fails ends the calls and its error is returned; the session is then
    closed.  On the in-memory server, which answers every probe, a probe
    answers only on a prefix that was there before the call and a creation
    is attempted only on a prefix that was not; nothing that was there is
    removed and every prefix that was created is there at the end,
    whatever the result; and when the call returns no error, every prefix
    is there at the end and the prefixes created are exactly those that
    were not there before. *)
Theorem CreateDirectoryRecursively_run (c : SFTPClient) (dirPath : string) :
  (forall (W Conn Client File : Type) (R : RemoteFilesystem W Conn Client File)
          (w w' : W) (log : list event) (r : option error),
      CreateDirectoryRecursively (R := Logged R) c dirPath (w, []) = ((w', log), r) ->
      In (EvNewClient None) log ->
      exists addr config t,
        log = ([EvDial "tcp" addr config None; EvNewClient None] ++ t
               ++ [EvClientClose])%list
        /\ ensure_path_run (prefixes "" (components dirPath)) t r
        /\ (forall q, (exists o, In (EvMkdir q o) t)
                      <-> (exists e, In (EvStat q (inr e)) t))
        /\ (forall q, (exists a, In (EvStat q a) t)
                      -> In q (prefixes "" (components dirPath))))
  /\ (forall (w w' : MemFS.server) (log : list event) (r : option error),
         CreateDirectoryRecursively (R := Logged MemFS.Remote) c dirPath (w, [])
         = ((w', log), r) ->
         (forall q fi, In (EvStat q (inl fi)) log -> MemFS.exists_at w q = true)
         /\ (forall q o, In (EvMkdir q o) log -> MemFS.exists_at w q = false)
         /\ (forall q, MemFS.exists_at w q = true -> MemFS.exists_at w' q = true)
         /\ (forall q, In (EvMkdir q None) log -> MemFS.exists_at w' q = true)
         /\ (r = None ->
             forall q, In q (prefixes "" (components dirPath)) ->
               MemFS.exists_at w' q = true
               /\ (In (EvMkdir q None) log <-> MemFS.exists_at w q = false))).
Proof.
  split.
  - intros W Conn Client File R w w' log r. run_package.
    destruct (ssh_Dial _ _ _ w) as [w0 [conn|e0]]; cbn [fst snd app];
      [|intros H Hin; inversion H; subst; pick_event Hin].
    destruct (sftp_NewClient conn w0) as [w1 [client|e1]]; cbn [fst snd app];
      [|intros H Hin; inversion H; subst; pick_event Hin; discriminate Hin].
    destruct (createComponents client (strings.Split dirPath "/") "" _)
      as [[w2 log2] r2] eqn:Ec.
    apply createComponents_run in Ec as [t [E Hrun]]. cbn [fst snd].
    destruct (Client_Close client w2) as [w3 o].
    intros H _. inversion H; subst. do 2 eexists. exists t.
    split; [reflexivity|]. split; [exact Hrun|].
    split; intros q; apply (ensure_path_run_creates _ _ _ Hrun q).
  - intros w w' log r. run_package.
    cbn [ssh_Dial sftp_NewClient Client_Close MemFS.Remote]. unfold ret.
    destruct (MemFS.dial _ _ _ w) as [w0 [[]|e0]] eqn:Ed; cbn [fst snd app].
    2:{ intros H. inversion H; subst.
        repeat split; try discriminate; intros; pick_event H0.
        unfold MemFS.dial in Ed.
        destruct (_ && _) in Ed; inversion Ed; subst; assumption. }
    assert (E0 : w0 = w)
      by (unfold MemFS.dial in Ed; destruct (_ && _) in Ed; now inversion Ed).
    subst w0.
    destruct (createComponents tt (strings.Split dirPath "/") "" _)
      as [[w2 log2] r2] eqn:Ec.
    pose proof (MemFS_createComponents_keeps _ _ _ _ _ _ _ Ec) as [Kk Kc].
    pose proof (MemFS_createComponents_truthful _ (Split_parts_no_slash dirPath)
                  _ _ _ _ _ _ Ec) as (t & E & KS & KM).
    apply createComponents_run in Ec as (t2 & E2 & Hrun).
    assert (Et : t2 = t) by (rewrite E in E2; now apply app_inv_head in E2).
    subst t2 log2. cbn [fst snd].
    intros H. inversion H; subst. clear H.
    match goal with
    | |- (forall q fi, In _ ?L -> _) /\ _ =>
        assert (HinS : forall q a, In (EvStat q a) L -> In (EvStat q a) t);
        [|assert (HinM : forall q o, In (EvMkdir q o) L -> In (EvMkdir q o) t)]
    end.
    { intros q a Hev. destruct Hev as [Hev|[Hev|Hev]]; try discriminate Hev.
      apply in_app_or in Hev as [Hev|Hev]; [exact Hev | pick_event Hev]. }
    { intros q o Hev. destruct Hev as [Hev|[Hev|Hev]]; try discriminate Hev.
      apply in_app_or in Hev as [Hev|Hev]; [exact Hev | pick_event Hev]. }
    assert (Hmade : forall q, In (EvMkdir q None) t -> MemFS.exists_at w' q = true).
    { intros q Hq. destruct (Kc q) as [Hl|Hx]; [|pick_event Hl|exact Hx].
      apply in_or_app. now right. }
    split; [|split; [|split; [|split]]].
    + intros q fi Hq. apply HinS in Hq. now destruct (KS _ _ Hq).
    + intros q o Hq. apply HinM in Hq. now destruct (KM _ _ Hq).
    + exact Kk.
    + intros q Hq. apply HinM in Hq. now apply Hmade.
    + intros Hr q Hq.
      destruct (ensure_path_run_complete _ _ _ Hrun Hr q Hq) as [[fi Hs]|Hm].
      * pose proof (proj1 (KS _ _ Hs)) as Hex. split; [now apply Kk|]. split.
        -- intros Hm. apply HinM in Hm. destruct (KM _ _ Hm). congruence.
        -- congruence.
      * split; [now apply Hmade|]. split.
        -- intros _. now destruct (KM _ _ Hm).
        -- intros _. do 2 right. apply in_or_app. now left.
Qed.

(** C9: [CreateDirectoryRecursively] sees only the non-empty components of
    [dirPath]: whatever the remote side, a slash in front, a slash at the
    end, or a slash doubled inside leaves the calls (the log), the state
    afterwards and the result the same; on a path of slashes only, or the
    empty path, the only calls are those of the session, no probe and no
    creation, and the result is [nil] once the session is open; on the
    in-memory server the state is then unchanged. *)
Theorem CreateDirectoryRecursively_empty_components (c : SFTPClient) :
  (forall (W Conn Client File : Type) (R : RemoteFilesystem W Conn Client File)
          (a b : string) (wl : W * list event),
      CreateDirectoryRecursively (R := Logged R) c ("/" ++ a) wl
      = CreateDirectoryRecursively (R := Logged R) c a wl
      /\ CreateDirectoryRecursively (R := Logged R) c (a ++ "/") wl
         = CreateDirectoryRecursively (R := Logged R) c a wl
      /\ CreateDirectoryRecursively (R := Logged R) c (a ++ "//" ++ b) wl
         = CreateDirectoryRecursively (R := Logged R) c (a ++ "/" ++ b) wl)
  /\ (forall (W Conn Client File : Type) (R : RemoteFilesystem W Conn Client File)
             (dirPath : string) (w w' : W) (log : list event) (r : option error),
         only_slashes dirPath = true ->
         CreateDirectoryRecursively (R := Logged R) c dirPath (w, [])
         = ((w', log), r) ->
         Forall session_event log /\ (In (EvNewClient None) log -> r = None))
  /\ (forall (dirPath : string) (w : MemFS.server),
         only_slashes dirPath = true ->
         MemFS.accepts w c = true ->
         CreateDirectoryRecursively (R := MemFS.Remote) c dirPath w = (w, None)).
Proof.
  split; [|split].
  - intros W Conn Client File R a b wl.
    split; [|split]; apply CreateDirectoryRecursively_components.
    + exact (components_app "" a).
    + change (a ++ "/") with (a ++ "/" ++ ""). rewrite components_app.
      apply app_nil_r.
    + change (a ++ "//" ++ b) with (a ++ "/" ++ ("" ++ "/" ++ b)).
      now rewrite !components_app.
  - intros W Conn Client File R dirPath w w' log r Hs.
    rewrite (CreateDirectoryRecursively_components (Logged R) c dirPath ""
               (w, []) (components_only_slashes _ Hs)).
    run_package. cbn [strings.Split createComponents String.eqb].
    unfold ret. repeat call.
    all: intros H; inversion H; subst; split.
    all: try (repeat (apply Forall_cons; [exact I|]); apply Forall_nil).
    all: intros Hin; pick_event Hin; try reflexivity; discriminate Hin.
  - intros dirPath w Hs Hacc.
    rewrite (CreateDirectoryRecursively_components MemFS.Remote c dirPath ""
               w (components_only_slashes _ Hs)).
    unfold CreateDirectoryRecursively. rewrite bind_run, MemFS_connect, Hacc.
    reflexivity.
Qed.

(** ** Enough fuel for a finite tree *)

Lemma MemFS_lookup_app (a b : list string) :
  forall n,
    MemFS.lookup (a ++ b) n
    = match MemFS.lookup a n with
      | Some x => MemFS.lookup b x
      | None => None
      end.
Proof.
  induction a as [|s a IH]; intros n; cbn; [reflexivity|].
  destruct n as [p t data|p t es]; [reflexivity|].
  destruct (MemFS.find s es); [apply IH | reflexivity].
Qed.

Lemma MemFS_find_NoDup (es : list (string * MemFS.node)) (k : string) (c : MemFS.node) :
  NoDup (map fst es) -> In (k, c) es -> MemFS.find k es = Some c.
Proof.
  induction es as [|[k0 c0] es IH]; cbn; [intros _ []|].
  intros Hnd [E|Hin].
  - inversion E; subst. now rewrite String.eqb_refl.
  - inversion Hnd as [|x l Hnot Hnd']; subst.
    destruct (String.eqb_spec k0 k) as [E|_]; [|auto].
    destruct Hnot. rewrite E. change k with (fst (k, c)). now apply in_map.
Qed.

Lemma MemFS_well_formed_entry (p t : Z) (es : list (string * MemFS.node))
    (k : string) (c : MemFS.node) :
  MemFS.well_formed (MemFS.Dir p t es) -> In (k, c) es ->
  MemFS.valid_name k = true /\ MemFS.well_formed c
  /\ MemFS.height c < MemFS.height (MemFS.Dir p t es).
Proof.
  intros [_ Hall]. cbn [MemFS.height]. revert Hall.
  induction es as [|[k0 c0] es IH]; [intros _ []|].
  intros (Hk & Hc & Hall) [E|Hin].
  - inversion E; subst. repeat split; auto. lia.
  - destruct (IH Hall Hin) as (H1 & H2 & H3). repeat split; auto. lia.
Qed.

(** On a well-formed tree the walk of a directory comes back, without an
    error, whenever the fuel is at least the height of the directory. *)
Lemma MemFS_walk_returns (fuel : nat) :
  forall dirPath prefix acc (w : MemFS.server) p t es,
    MemFS.lookup (MemFS.segments dirPath) (MemFS.root w) = Some (MemFS.Dir p t es) ->
    MemFS.well_formed (MemFS.Dir p t es) ->
    MemFS.height (MemFS.Dir p t es) <= fuel ->
    exists acc',
      listAllFilesRecursive (R := MemFS.Remote) fuel dirPath prefix tt acc w
      = (w, (acc', Some None)).
Proof.
  induction fuel as [|fuel IH]; intros dirPath prefix acc w p t es Hl Hwf Hh.
  - cbn in Hh. lia.
  - cbn [listAllFilesRecursive]. rewrite bind_run.
    cbn [Client_ReadDir MemFS.Remote]. unfold MemFS.readDir. rewrite Hl.
    match goal with
    | |- exists acc', ?F _ acc w = _ =>
        assert (Inner : forall es', incl es' es ->
                  forall acc1, exists acc',
                    F (map (fun e => MemFS.info (fst e) (snd e)) es') acc1 w
                    = (w, (acc', Some None)))
    end.
    { induction es' as [|[k c] es' IHe]; intros Hsub acc1;
        [exists acc1; reflexivity|].
      assert (Hin : In (k, c) es) by (apply Hsub; now left).
      assert (Hsub' : incl es' es) by (intros e He; apply Hsub; now right).
      destruct (MemFS_well_formed_entry _ _ _ _ _ Hwf Hin) as (Hk & Hc & Hlt).
      cbn [map fst snd]. destruct c as [p1 t1 data|p1 t1 es1]; cbn [MemFS.info os.IsDir].
      - apply (IHe Hsub').
      - rewrite bind_run. cbn [os.Name].
        destruct (IH ((dirPath ++ "/") ++ k) ((prefix ++ "/") ++ k) acc1 w p1 t1 es1)
          as [acc2 E]; [| exact Hc | lia |].
        + rewrite (MemFS_segments_child _ _ Hk), MemFS_lookup_app, Hl. cbn.
          destruct Hwf as [Hnd _]. now rewrite (MemFS_find_NoDup _ _ _ Hnd Hin).
        + rewrite E. apply (IHe Hsub'). }
    apply (Inner es (incl_refl es)).
Qed.

(** [ListAllFiles] returns: on a well-formed tree, for a client the server
    lets in and a path that resolves to a directory, every fuel from the
    height of that directory on gives a slice and no error. *)
Lemma MemFS_ListAllFiles_returns (c : SFTPClient) (fuel : nat) (dirPath : string)
    (w : MemFS.server) (p t : Z) (es : list (string * MemFS.node)) :
  MemFS.accepts w c = true ->
  MemFS.lookup (MemFS.segments dirPath) (MemFS.root w) = Some (MemFS.Dir p t es) ->
  MemFS.well_formed (MemFS.Dir p t es) ->
  MemFS.height (MemFS.Dir p t es) <= fuel ->
  exists recs,
    ListAllFiles (R := MemFS.Remote) c fuel dirPath w = (w, Some (recs, None)).
Proof.
  intros Hacc Hl Hwf Hh. unfold ListAllFiles. rewrite bind_run, MemFS_connect, Hacc.
  unfold defer. rewrite !bind_run.
  destruct (MemFS_walk_returns fuel dirPath "" [] w p t es Hl Hwf Hh) as [recs E].
  rewrite E. exists recs. reflexivity.
Qed.

(** * The theorems at work on the sample server *)


(** [/root] and [/root/sub] are found, [/root/sub/x] and [/root/sub/x/y]
    are created, in that order: [/root/sub] was there and is not created,
    [/root/sub/x] was not and is; under the file [/notes] the first
    creation fails and its error is returned. *)
Lemma CreateDirectoryRecursively_run_witness :
  (exists addr config t,
      snd (fst (CreateDirectoryRecursively (R := Logged MemFS.Remote) alice
                  "//root/sub//x/y/" (sample, [])))
      = ([EvDial "tcp" addr config None; EvNewClient None] ++ t
         ++ [EvClientClose])%list
      /\ ensure_path_run ["/root"; "/root/sub"; "/root/sub/x"; "/root/sub/x/y"] t None)
  /\ (MemFS.exists_at
        (fst (fst (CreateDirectoryRecursively (R := Logged MemFS.Remote) alice
                     "//root/sub//x/y/" (sample, []))))
        "/root/sub/x" = true
      /\ (In (EvMkdir "/root/sub/x" None)
            (snd (fst (CreateDirectoryRecursively (R := Logged MemFS.Remote) alice
                         "//root/sub//x/y/" (sample, []))))
          <-> MemFS.exists_at sample "/root/sub/x" = false))
  /\ MemFS.exists_at sample "/root/sub/x" = false
  /\ (In (EvMkdir "/root/sub" None)
        (snd (fst (CreateDirectoryRecursively (R := Logged MemFS.Remote) alice
                     "//root/sub//x/y/" (sample, []))))
      <-> MemFS.exists_at sample "/root/sub" = false)
  /\ MemFS.exists_at sample "/root/sub" = true
  /\ snd (CreateDirectoryRecursively (R := Logged MemFS.Remote) alice
            "/notes/x/y" (sample, []))
     = Some (RemoteOperationError "not a directory").
Proof.
  split; [|split; [|split; [reflexivity | split; [|split; reflexivity]]]].
  - edestruct (proj1 (CreateDirectoryRecursively_run alice "//root/sub//x/y/")
                 _ _ _ _ MemFS.Remote sample)
      as (addr & config & t & E & Hrun & _).
    + vm_compute. reflexivity.
    + vm_compute. tauto.
    + exists addr, config, t. split; [exact E | exact Hrun].
  - edestruct (proj2 (CreateDirectoryRecursively_run alice "//root/sub//x/y/") sample)
      as (_ & _ & _ & _ & Hdone).
    + vm_compute. reflexivity.
    + apply Hdone; [reflexivity | vm_compute; tauto].
  - edestruct (proj2 (CreateDirectoryRecursively_run alice "//root/sub//x/y/") sample)
      as (_ & _ & _ & _ & Hdone).
    + vm_compute. reflexivity.
    + apply Hdone; [reflexivity | vm_compute; tauto].
Defined.

(** C2 as stated fails behind the drop box, which refuses every probe:
    [/root] is there, yet its creation is attempted, since its probe
    failed; that creation fails, the call returns its error, and
    [/root/new], which was not there, is not created. *)
Lemma CreateDirectoryRecursively_run_counterexample :
  MemFS.exists_at sample "/root" = true
  /\ MemFS.exists_at sample "/root/new" = false
  /\ snd (fst (CreateDirectoryRecursively (R := Logged dropbox) alice "/root/new"
                 (sample, [])))
     = [dial_event alice None; EvNewClient None;
        EvStat "/root" (inr (RemoteOperationError "permission denied"));
        EvMkdir "/root" (Some (RemoteOperationError "file exists"));
        EvClientClose]
  /\ snd (CreateDirectoryRecursively (R := Logged dropbox) alice "/root/new"
            (sample, []))
     = Some (RemoteOperationError "file exists")
  /\ MemFS.exists_at
       (fst (fst (CreateDirectoryRecursively (R := Logged dropbox) alice "/root/new"
                    (sample, []))))
       "/root/new" = false.
Proof.
  repeat split; reflexivity.
Qed.

(** [/fresh] does not exist, [/notes] holds ["X"]; the server of the
    first two lines refuses the listing of [/root/sub] and answers every
    probe. *)
Lemma AppendToFile_OverwriteFile_laws_witness :
  AppendToFile (R := guarded) alice "/fresh" "X" sample
  = OverwriteFile (R := guarded) alice "/fresh" "X" sample
  /\ (exists w1,
         AppendToFile (R := guarded) alice "/notes" "Y" sample = (w1, None)
         /\ MemFS.contents w1 "/notes" = Some (bytes_of_string "XY"))
  /\ (exists w2,
         OverwriteFile (R := dropbox) alice "/notes" "second"
           (fst (OverwriteFile (R := dropbox) alice "/notes" "first" sample))
         = (w2, None)
         /\ MemFS.contents w2 "/notes" = Some (bytes_of_string "second")).
Proof.
  split; [|split].
  - apply (proj1 (AppendToFile_OverwriteFile_laws _ _ alice "/fresh")).
    reflexivity.
  - apply (proj1 (proj2 (AppendToFile_OverwriteFile_laws _ _ alice "/notes"))
             "X" "Y");
      reflexivity.
  - apply (proj2 (proj2 (AppendToFile_OverwriteFile_laws _ _ alice "/notes"))
             "first" "second" sample).
    vm_compute. reflexivity.
Defined.

(** C3 as stated fails twice: behind the drop box the probe of [/notes] is
    refused, and appending ["Y"] to the file that holds ["X"] returns no
    error and leaves ["Y"], not ["XY"]; and under the missing directory
    [/nodir] both overwrites fail and leave no file, not the second
    payload. *)
Lemma AppendToFile_OverwriteFile_laws_counterexample :
  (MemFS.contents sample "/notes" = Some (bytes_of_string "X")
   /\ snd (AppendToFile (R := dropbox) alice "/notes" "Y" sample) = None
   /\ MemFS.contents (fst (AppendToFile (R := dropbox) alice "/notes" "Y" sample))
        "/notes"
      = Some (bytes_of_string "Y")
   /\ bytes_of_string "Y" <> bytes_of_string "XY")
  /\ (snd (OverwriteFile (R := MemFS.Remote) alice "/nodir/f" "first" sample)
      = Some NotFoundError
      /\ snd (OverwriteFile (R := MemFS.Remote) alice "/nodir/f" "second"
                (fst (OverwriteFile (R := MemFS.Remote) alice "/nodir/f" "first"
                        sample)))
         = Some NotFoundError
      /\ MemFS.contents
           (fst (OverwriteFile (R := MemFS.Remote) alice "/nodir/f" "second"
                   (fst (OverwriteFile (R := MemFS.Remote) alice "/nodir/f" "first"
                           sample))))
           "/nodir/f"
         = None).
Proof.
  repeat split; try reflexivity. discriminate.
Qed.

Lemma ReadFile_after_OverwriteFile_witness :
  fst (snd (ReadFile (R := MemFS.Remote) alice "/root/sub/f2"
              (fst (OverwriteFile (R := MemFS.Remote) alice "/root/sub/f2"
                      "hello" sample))))
  = bytes_of_string "hello".
Proof.
  eapply (ReadFile_after_OverwriteFile alice "/root/sub/f2" "hello" sample);
    vm_compute; reflexivity.
Defined.

(** The listing of [/root/sub] fails after [/f1] was collected: the call
    returns the error and no record, while the walk itself holds one. *)
Lemma ListAllFiles_failure_no_partial_list_witness :
  snd (ListAllFiles (R := Logged guarded) alice 3 "/root" (sample, []))
  = Some ([], Some (RemoteOperationError "permission denied"))
  /\ map name (fst (snd (listAllFilesRecursive (R := guarded) 3 "/root" "" tt []
                           sample)))
     = ["/f1"].
Proof.
  split; [|reflexivity].
  eapply (ListAllFiles_failure_no_partial_list guarded alice 3 "/root" sample
            _ _ _ "/root/sub").
  - vm_compute. reflexivity.
  - vm_compute. tauto.
Defined.

Lemma CreateDirectoryIfNotExist_present_idempotent_witness :
  (exists fi,
      Client_Stat (RemoteFilesystem := MemFS.Remote) tt "/root/new"
        (fst (CreateDirectoryIfNotExist (R := MemFS.Remote) alice "/root/new" sample))
      = (fst (CreateDirectoryIfNotExist (R := MemFS.Remote) alice "/root/new" sample),
         inl fi)
      /\ os.IsDir fi = true)
  /\ fst (CreateDirectoryIfNotExist (R := MemFS.Remote) alice "/root/new"
            (fst (CreateDirectoryIfNotExist (R := MemFS.Remote) alice "/root/new"
                    sample)))
     = fst (CreateDirectoryIfNotExist (R := MemFS.Remote) alice "/root/new" sample).
Proof.
  split.
  - edestruct (proj1 (CreateDirectoryIfNotExist_present_idempotent alice "/root/new"
                        sample)) as [fi [Hs Hd]].
    + vm_compute. reflexivity.
    + exists fi. split; [exact Hs | apply Hd; reflexivity].
  - apply (proj2 (CreateDirectoryIfNotExist_present_idempotent alice "/root/new"
                    sample)).
Defined.

(** C6 as stated fails under a missing parent: [/nodir/x] is not there,
    the single-level creation fails, and the probe afterwards still does
    not find the path. *)
Lemma CreateDirectoryIfNotExist_present_idempotent_counterexample :
  MemFS.accepts sample alice = true
  /\ MemFS.exists_at sample "/nodir/x" = false
  /\ snd (CreateDirectoryIfNotExist (R := MemFS.Remote) alice "/nodir/x" sample)
     = Some NotFoundError
  /\ snd (Client_Stat (RemoteFilesystem := MemFS.Remote) tt "/nodir/x"
            (fst (CreateDirectoryIfNotExist (R := MemFS.Remote) alice "/nodir/x"
                    sample)))
     = inr NotFoundError.
Proof.
  repeat split; reflexivity.
Qed.

Lemma ListAllFiles_empty_directory_witness :
  ListAllFiles (R := MemFS.Remote) alice 1 "/root/empty" sample
  = (sample, Some ([], None))
  /\ ListAllFiles (R := guarded) alice 1 "/root/empty" sample
     = (sample, Some ([], None)).
Proof.
  split.
  - apply (proj2 (ListAllFiles_empty_directory alice 0 "/root/empty")
             sample 493%Z 0%Z);
      reflexivity.
  - apply (proj1 (ListAllFiles_empty_directory alice 0 "/root/empty")
             _ _ _ _ guarded sample sample sample sample tt tt);
      reflexivity.
Defined.

(** On the drop box the probe of [/notes] is refused, and the file that
    held ["X"] is truncated and holds ["Y"]. *)
Lemma AppendToFile_failed_probe_creates_witness :
  (exists addr config created,
      snd (fst (AppendToFile (R := Logged dropbox) alice "/notes" "Y" (sample, [])))
      = ([EvDial "tcp" addr config None; EvNewClient None;
          EvStat "/notes" (inr (RemoteOperationError "permission denied"));
          EvCreate "/notes" created]
         ++ match created with
            | Some _ => []
            | None => [EvWrite (bytes_of_string "Y")
                         (snd (AppendToFile (R := Logged dropbox) alice "/notes" "Y"
                                 (sample, [])));
                       EvFileClose]
            end
         ++ [EvClientClose])%list
      /\ (forall err, created = Some err ->
                      snd (AppendToFile (R := Logged dropbox) alice "/notes" "Y"
                             (sample, [])) = Some err))
  /\ AppendToFile (R := dropbox) alice "/notes" "Y" sample
     = OverwriteFile (R := MemFS.Remote) alice "/notes" "Y" sample
  /\ MemFS.contents sample "/notes" = Some (bytes_of_string "X")
  /\ MemFS.contents
       (fst (AppendToFile (R := dropbox) alice "/notes" "Y" sample)) "/notes"
     = Some (bytes_of_string "Y").
Proof.
  split; [|split; [|split; reflexivity]].
  - eapply (proj1 (AppendToFile_failed_probe_creates alice "/notes" "Y")
              _ _ _ _ dropbox sample).
    + vm_compute. reflexivity.
    + vm_compute. tauto.
  - eapply (proj2 (AppendToFile_failed_probe_creates alice "/notes" "Y")
              _ _ _ _ MemFS.Remote).
    reflexivity.
Defined.

Lemma CreateDirectoryRecursively_empty_components_witness :
  Forall session_event
    (snd (fst (CreateDirectoryRecursively (R := Logged MemFS.Remote) alice "///"
                 (sample, []))))
  /\ CreateDirectoryRecursively (R := MemFS.Remote) alice "" sample = (sample, None)
  /\ CreateDirectoryRecursively (R := Logged MemFS.Remote) alice "/root//new/"
       (sample, [])
     = CreateDirectoryRecursively (R := Logged MemFS.Remote) alice "/root/new"
         (sample, []).
Proof.
  split; [|split].
  - eapply (proj1 (proj2 (CreateDirectoryRecursively_empty_components alice))
              _ _ _ _ MemFS.Remote "///" sample).
    + reflexivity.
    + vm_compute. reflexivity.
  - apply (proj2 (proj2 (CreateDirectoryRecursively_empty_components alice)));
      reflexivity.
  - destruct (proj1 (CreateDirectoryRecursively_empty_components alice)
                _ _ _ _ MemFS.Remote "/root/new" "" (sample, [])) as (_ & E2 & _).
    destruct (proj1 (CreateDirectoryRecursively_empty_components alice)
                _ _ _ _ MemFS.Remote "/root" "new/" (sample, [])) as (_ & _ & E3).
    rewrite <- E2. exact E3.
Defined.

(** * Further properties of the package *)

(** ** One session per call *)

(** Shows a log as the calls of a closed session. *)
Ltac closed_session :=
  match goal with
  | |- one_session _ _ (_ :: _ :: ?rest) _ =>
      let b := eval cbn in (removelast rest) in
      apply (session_closed _ _ b); repeat (apply Forall_cons; [exact I|]);
      apply Forall_nil
  end.

Ltac any_session :=
  first [ apply session_refused | apply session_no_client | closed_session ].

Lemma walk_lists_only {W Conn Client File : Type}
    (R : RemoteFilesystem W Conn Client File) (fuel : nat) :
  forall dirPath prefix client acc w log w' log' acc' out,
    listAllFilesRecursive (R := Logged R) fuel dirPath prefix client acc (w, log)
    = ((w', log'), (acc', out)) ->
    exists ext, (log' = log ++ ext)%list /\ Forall listing_event ext.
Proof.
  induction fuel as [|fuel IH]; intros dirPath prefix client acc w log w' log' acc' out.
  - cbn. intros H. inversion H; subst. exists []. split; [now rewrite app_nil_r | constructor].
  - cbn [listAllFilesRecursive]. rewrite bind_run.
    cbn [Client_ReadDir Logged]. unfold logged at 1. cbn [fst snd].
    destruct (Client_ReadDir client dirPath w) as [w1 [files|err]].
    + match goal with
      | |- ?F files acc _ = _ -> _ =>
          assert (Inner : forall fs acc1 w2 log1,
                     F fs acc1 (w2, log1) = ((w', log'), (acc', out)) ->
                     exists ext, (log' = log1 ++ ext)%list /\ Forall listing_event ext)
      end.
      { induction fs as [|f fs IHf]; intros acc1 w2 log1 H.
        - inversion H; subst. exists []. split; [now rewrite app_nil_r | constructor].
        - destruct (os.IsDir f).
          + rewrite bind_run in H.
            destruct (listAllFilesRecursive fuel _ _ client acc1 (w2, log1))
              as [[w3 log2] [acc2 out2]] eqn:Er.
            apply IH in Er as [ext2 [E2 F2]].
            destruct out2 as [[err|]|];
              [inversion H; subst; eauto | | inversion H; subst; eauto].
            apply IHf in H as [ext3 [E3 F3]].
            exists (ext2 ++ ext3)%list. split.
            * now rewrite E3, E2, app_assoc.
            * apply Forall_app. auto.
          + apply (IHf _ _ _ H). }
      intros H. apply Inner in H as [ext [E F]].
      exists (EvReadDir dirPath (inl files) :: ext). split.
      * now rewrite E, <- app_assoc.
      * constructor; [exact I | exact F].
    + intros H. inversion H; subst. eexists. split; [reflexivity|].
      repeat constructor.
Qed.

Lemma ensure_path_run_events (qs : list string) (t : list event) (r : option error) :
  ensure_path_run qs t r -> Forall directory_event t.
Proof. induction 1; repeat constructor; assumption. Qed.

(** X1: whatever the remote side, every exported method dials once, with
    the address, user and password of the client; when the dialling or the
    making of the client fails it returns that error and calls nothing
    else; otherwise it closes the session by its last call, on every way
    out, and in between makes only calls of its own kind: [OverwriteFile]
    never probes, the listing methods only list, the directory methods only
    probe and make directories. *)
Theorem methods_one_session
    {W Conn Client File : Type} (R : RemoteFilesystem W Conn Client File)
    (c : SFTPClient) (path data : string) (fuel : nat) (w : W) :
  (let run := AppendToFile (R := Logged R) c path data (w, []) in
   one_session c append_event (snd (fst run)) (snd run))
  /\ (let run := OverwriteFile (R := Logged R) c path data (w, []) in
      one_session c overwrite_event (snd (fst run)) (snd run))
  /\ (let run := ReadFile (R := Logged R) c path (w, []) in
      one_session c read_event (snd (fst run)) (snd (snd run)))
  /\ (let run := ListOfFilesDir (R := Logged R) c path (w, []) in
      one_session c listing_event (snd (fst run)) (snd (snd run)))
  /\ (let run := ListAllFiles (R := Logged R) c fuel path (w, []) in
      one_session c listing_event (snd (fst run)) (listing_error (snd run)))
  /\ (let run := CreateDirectoryIfNotExist (R := Logged R) c path (w, []) in
      one_session c directory_event (snd (fst run)) (snd run))
  /\ (let run := CreateDirectoryRecursively (R := Logged R) c path (w, []) in
      one_session c directory_event (snd (fst run)) (snd run)).
Proof.
  fold (dial_event c).
  repeat split; cbv zeta.
  - run_package. repeat call; any_session.
  - run_package. repeat call; any_session.
  - run_package. repeat call; any_session.
  - run_package. repeat call; any_session.
  - run_package.
    destruct (ssh_Dial _ _ _ w) as [w0 [conn|e0]]; cbn [fst snd app];
      [|apply session_refused].
    destruct (sftp_NewClient conn w0) as [w1 [client|e1]]; cbn [fst snd app];
      [|apply session_no_client].
    destruct (listAllFilesRecursive fuel path "" client [] _)
      as [[w2 log2] [acc out]] eqn:Ew.
    apply walk_lists_only in Ew as [ext [E F]]. subst log2.
    destruct out as [[e2|]|]; cbn [fst snd];
      destruct (Client_Close client w2) as [w3 o]; cbn [fst snd listing_error];
      apply (session_closed _ _ ext _ F).
  - run_package. repeat call; any_session.
  - run_package.
    destruct (ssh_Dial _ _ _ w) as [w0 [conn|e0]]; cbn [fst snd app];
      [|apply session_refused].
    destruct (sftp_NewClient conn w0) as [w1 [client|e1]]; cbn [fst snd app];
      [|apply session_no_client].
    destruct (createComponents client (strings.Split path "/") "" _)
      as [[w2 log2] r2] eqn:Ec.
    apply createComponents_run in Ec as [t [E Hrun]]. subst log2. cbn [fst snd].
    destruct (Client_Close client w2) as [w3 o]. cbn [fst snd].
    apply (session_closed _ _ t _ (ensure_path_run_events _ _ _ Hrun)).
Qed.

(** X2: whatever the remote side, the three methods that work on a file
    open at most one file per call and close every file they opened,
    exactly once, also when the writing or the reading fails. *)
Theorem file_methods_close_handles
    {W Conn Client File : Type} (R : RemoteFilesystem W Conn Client File)
    (c : SFTPClient) (path data : string) (w : W) :
  (let log := snd (fst (AppendToFile (R := Logged R) c path data (w, []))) in
   List.length (filter opens_file log) = List.length (filter closes_file log)
   /\ List.length (filter opens_file log) <= 1)
  /\ (let log := snd (fst (OverwriteFile (R := Logged R) c path data (w, []))) in
      List.length (filter opens_file log) = List.length (filter closes_file log)
      /\ List.length (filter opens_file log) <= 1)
  /\ (let log := snd (fst (ReadFile (R := Logged R) c path (w, []))) in
      List.length (filter opens_file log) = List.length (filter closes_file log)
      /\ List.length (filter opens_file log) <= 1).
Proof.
  repeat split; cbv zeta; run_package; repeat call; cbn; lia.
Qed.

(** ** Errors and payloads *)

(** X3: whatever the remote side, a method that returns data returns none
    with an error: the slice of [ReadFile], of [ListOfFilesDir] and of
    [ListAllFiles] is [nil] whenever the error is not; in particular, when
    the reading of a file stops with an error after some bytes, [ReadFile]
    drops those bytes. *)
Theorem errors_carry_no_payload
    {W Conn Client File : Type} (R : RemoteFilesystem W Conn Client File)
    (c : SFTPClient) (path : string) (fuel : nat) (w : W) :
  (forall w' buf e,
      ReadFile (R := R) c path w = (w', (buf, Some e)) -> buf = [])
  /\ (forall w' files e,
         ListOfFilesDir (R := R) c path w = (w', (files, Some e)) -> files = [])
  /\ (forall w' recs e,
         ListAllFiles (R := R) c fuel path w = (w', Some (recs, Some e)) -> recs = [])
  /\ (forall n err, fst (snd (ReadFile (R := CutReads n err R) c path w)) = []).
Proof.
  repeat split.
  - run_package. repeat call; intros ? ? ? H; inversion H; reflexivity.
  - run_package. repeat call; intros ? ? ? H; inversion H; reflexivity.
  - unfold ListAllFiles, connect, defer, bind, ret.
    repeat call; intros ? ? ? H; inversion H; reflexivity.
  - intros n err. run_package. cbn [CutReads Buffer_ReadFrom ssh_Dial sftp_NewClient
      Client_Open File_Close Client_Close]. unfold bind, ret.
    repeat call; reflexivity.
Qed.

(** ** AppendToFile on a file that is there *)

(** X4: whatever the remote side, when the probe of [filePath] answers,
    the calls of [AppendToFile] are: the dialling, the making of the
    client, the probe, [OpenFile] on [filePath] with the flags
    [O_APPEND|O_WRONLY] and no other, then, when the opening succeeded,
    the [Write] of the bytes of [data] and the closing of the file, then
    the closing of the client.  [Create] is never called, and the result
    is the error of [OpenFile] or of [Write], if any.  The flags neither
    create nor truncate. *)
Theorem AppendToFile_answered_probe_appends
    {W Conn Client File : Type} (R : RemoteFilesystem W Conn Client File)
    (c : SFTPClient) (filePath data : string)
    (w w' : W) (log : list event) (r : option error) (fi : os.FileInfo) :
  AppendToFile (R := Logged R) c filePath data (w, []) = ((w', log), r) ->
  In (EvStat filePath (inl fi)) log ->
  (exists opened,
      log = ([dial_event c None; EvNewClient None;
              EvStat filePath (inl fi);
              EvOpenFile filePath (Z.lor os.O_APPEND os.O_WRONLY) opened]
             ++ match opened with
                | Some _ => []
                | None => [EvWrite (bytes_of_string data) r; EvFileClose]
                end
             ++ [EvClientClose])%list
      /\ (forall err, opened = Some err -> r = Some err))
  /\ (forall p err, ~ In (EvCreate p err) log)
  /\ Z.land (Z.lor os.O_APPEND os.O_WRONLY) (Z.lor os.O_CREATE os.O_TRUNC) = 0%Z.
Proof.
  revert w' log r. run_package. repeat call.
  all: intros w' log r H Hin; inversion H; subst; clear H; pick_event Hin.
  all: inversion Hin; subst.
  all: split; [|split; [intros p0 err0 Hc; pick_event Hc | reflexivity]].
  all: first
         [ exists None; split; [reflexivity | intros err E; discriminate E]
         | eexists (Some _); split; [reflexivity | intros err E; congruence] ].
Qed.

(** ** ListAllFiles and ListOfFilesDir *)

Lemma walk_flat {W Conn Client File : Type}
    (R : RemoteFilesystem W Conn Client File) (fuel : nat)
    (dirPath prefix : string) (client : Client) (acc : list fileInfo)
    (w w2 : W) (files : list os.FileInfo) :
  Client_ReadDir client dirPath w = (w2, inl files) ->
  Forall (fun f => os.IsDir f = false) files ->
  listAllFilesRecursive (S fuel) dirPath prefix client acc w
  = (w2, ((acc ++ map (newFile prefix) files)%list, Some None)).
Proof.
  intros Hl Hall. cbn [listAllFilesRecursive]. rewrite bind_run, Hl.
  match goal with
  | |- ?F files acc w2 = _ =>
      assert (Inner : forall fs a,
                 Forall (fun f => os.IsDir f = false) fs ->
                 F fs a w2 = (w2, ((a ++ map (newFile prefix) fs)%list, Some None)))
  end.
  { induction fs as [|f fs IHf]; intros a Hfs.
    - cbn. now rewrite app_nil_r.
    - inversion Hfs as [|x l Hf Hrest]; subst. rewrite Hf.
      rewrite (IHf _ Hrest). cbn [map]. now rewrite <- app_assoc. }
  apply (Inner files acc Hall).
Qed.

(** X5: whatever the remote side, on a directory whose listing holds no
    directory [ListAllFiles] (with any fuel but none) is [ListOfFilesDir]:
    the same state afterwards, and one record for each entry, in the same
    order, whose name is the entry's name after a slash, whose size, mode,
    time and [Sys] are the entry's, and which is no directory; and when
    [ListOfFilesDir] returns an error, [ListAllFiles] returns the same
    error. *)
Theorem ListAllFiles_flat_directory
    {W Conn Client File : Type} (R : RemoteFilesystem W Conn Client File)
    (c : SFTPClient) (dirPath : string) (fuel : nat) (w w' : W) :
  (forall files,
      ListOfFilesDir (R := R) c dirPath w = (w', (files, None)) ->
      Forall (fun f => os.IsDir f = false) files ->
      exists recs,
        ListAllFiles (R := R) c (S fuel) dirPath w = (w', Some (recs, None))
        /\ Forall2 (fun r f =>
                      name r = "/" ++ os.Name f
                      /\ size r = os.Size f
                      /\ mode r = os.Mode f
                      /\ modTime r = os.ModTime f
                      /\ isDir r = false
                      /\ Sys r = os.Sys f) recs files)
  /\ (forall files e,
         ListOfFilesDir (R := R) c dirPath w = (w', (files, Some e)) ->
         ListAllFiles (R := R) c (S fuel) dirPath w = (w', Some ([], Some e))).
Proof.
  split.
  - intros files. unfold ListOfFilesDir, ListAllFiles. rewrite !bind_run.
    destruct (connect c w) as [w1 [client|err]]; [|intros H; inversion H].
    unfold defer. rewrite !bind_run.
    destruct (Client_ReadDir client dirPath w1) as [w2 [fs|err]] eqn:El.
    + unfold ret at 1. cbn beta iota. rewrite bind_run.
      destruct (Client_Close client w2) as [w3 o] eqn:Ecl.
      intros H Hall. inversion H; subst.
      rewrite (walk_flat R fuel dirPath "" client [] w1 w2 files El Hall).
      unfold ret at 1. cbn beta iota. rewrite bind_run, Ecl.
      exists (map (newFile "") files). split; [reflexivity|].
      clear El H. induction Hall as [|f fs Hf Hfs IHfs]; cbn [map].
      * constructor.
      * constructor; [|exact IHfs].
        cbn [newFile name size mode modTime isDir Sys]. now rewrite Hf.
    + unfold ret at 1. cbn beta iota. rewrite bind_run.
      destruct (Client_Close client w2) as [w3 o].
      intros H. inversion H.
  - intros files e. unfold ListOfFilesDir, ListAllFiles. rewrite !bind_run.
    destruct (connect c w) as [w1 [client|err]].
    + unfold defer. rewrite !bind_run. cbn [listAllFilesRecursive]. rewrite bind_run.
      destruct (Client_ReadDir client dirPath w1) as [w2 [fs|err]].
      * unfold ret at 1. cbn beta iota. rewrite bind_run.
        destruct (Client_Close client w2) as [w3 o].
        intros H. inversion H.
      * unfold bind, ret. destruct (Client_Close client w2) as [w3 o].
        intros H. inversion H; subst. reflexivity.
    + intros H. inversion H; subst. reflexivity.
Qed.

(** ** ListAllFiles on a whole tree *)

Lemma tree_records_cons (prefix : string) (p t : Z) (k : string) (c : MemFS.node)
    (es : list (string * MemFS.node)) :
  tree_records prefix (MemFS.Dir p t ((k, c) :: es))
  = (match c with
     | MemFS.File _ _ _ => [newFile prefix (MemFS.info k c)]
     | MemFS.Dir _ _ _ => tree_records ((prefix ++ "/") ++ k) c
     end ++ tree_records prefix (MemFS.Dir p t es))%list.
Proof. reflexivity. Qed.

(** On a well-formed tree the walk of a directory adds the records of its
    files, depth first, and changes nothing. *)
Lemma MemFS_walk_tree (fuel : nat) :
  forall dirPath prefix acc (w : MemFS.server) p t es,
    MemFS.lookup (MemFS.segments dirPath) (MemFS.root w) = Some (MemFS.Dir p t es) ->
    MemFS.well_formed (MemFS.Dir p t es) ->
    MemFS.height (MemFS.Dir p t es) <= fuel ->
    listAllFilesRecursive (R := MemFS.Remote) fuel dirPath prefix tt acc w
    = (w, ((acc ++ tree_records prefix (MemFS.Dir p t es))%list, Some None)).
Proof.
  induction fuel as [|fuel IH]; intros dirPath prefix acc w p t es Hl Hwf Hh.
  - cbn in Hh. lia.
  - cbn [listAllFilesRecursive]. rewrite bind_run.
    cbn [Client_ReadDir MemFS.Remote]. unfold MemFS.readDir. rewrite Hl.
    match goal with
    | |- ?F _ acc w = _ =>
        assert (Inner : forall es', incl es' es ->
                  forall acc1,
                    F (map (fun e => MemFS.info (fst e) (snd e)) es') acc1 w
                    = (w, ((acc1 ++ tree_records prefix (MemFS.Dir p t es'))%list,
                           Some None)))
    end.
    { induction es' as [|[k c] es' IHe]; intros Hsub acc1.
      - cbn. now rewrite app_nil_r.
      - assert (Hin : In (k, c) es) by (apply Hsub; now left).
        assert (Hsub' : incl es' es) by (intros e He; apply Hsub; now right).
        destruct (MemFS_well_formed_entry _ _ _ _ _ Hwf Hin) as (Hk & Hc & Hlt).
        rewrite tree_records_cons. cbn [map fst snd].
        destruct c as [p1 t1 data|p1 t1 es1]; cbn [MemFS.info os.IsDir].
        + rewrite (IHe Hsub'). now rewrite <- app_assoc.
        + rewrite bind_run. cbn [os.Name].
          rewrite (IH ((dirPath ++ "/") ++ k) ((prefix ++ "/") ++ k) acc1 w p1 t1 es1);
            [| | exact Hc | lia].
          * rewrite (IHe Hsub'). now rewrite <- app_assoc.
          * rewrite (MemFS_segments_child _ _ Hk), MemFS_lookup_app, Hl. cbn.
            destruct Hwf as [Hnd _]. now rewrite (MemFS_find_NoDup _ _ _ Hnd Hin). }
    apply (Inner es (incl_refl es)).
Qed.

(** X6: on the in-memory server with a well-formed tree, for a client it
    lets in and a path that resolves to a directory, [ListAllFiles] with
    fuel from the height of the directory on returns one record for each
    regular file below the directory and nothing else, depth first, every
    directory in the order of its entries, with no error; the server is
    left as it was. *)
Theorem MemFS_ListAllFiles_tree (c : SFTPClient) (fuel : nat) (dirPath : string)
    (w : MemFS.server) (p t : Z) (es : list (string * MemFS.node)) :
  MemFS.accepts w c = true ->
  MemFS.lookup (MemFS.segments dirPath) (MemFS.root w) = Some (MemFS.Dir p t es) ->
  MemFS.well_formed (MemFS.Dir p t es) ->
  MemFS.height (MemFS.Dir p t es) <= fuel ->
  ListAllFiles (R := MemFS.Remote) c fuel dirPath w
  = (w, Some (tree_records "" (MemFS.Dir p t es), None)).
Proof.
  intros Hacc Hl Hwf Hh. unfold ListAllFiles. rewrite bind_run, MemFS_connect, Hacc.
  unfold defer. rewrite !bind_run.
  rewrite (MemFS_walk_tree fuel dirPath "" [] w p t es Hl Hwf Hh). reflexivity.
Qed.

Lemma MemFS_ReadFile_file (c : SFTPClient) (filePath : string) (w : MemFS.server)
    (data : list byte) :
  MemFS.accepts w c = true ->
  MemFS.contents w filePath = Some data ->
  ReadFile (R := MemFS.Remote) c filePath w = (w, (data, None)).
Proof.
  intros Hacc Hc. unfold MemFS.contents in Hc.
  destruct (MemFS.lookup (MemFS.segments filePath) (MemFS.root w))
    as [[p t d|p t es]|] eqn:El; try discriminate.
  inversion Hc; subst d.
  unfold ReadFile. rewrite bind_run, MemFS_connect, Hacc.
  unfold defer. rewrite !bind_run, MemFS_open_spec, El.
  rewrite !bind_run. cbn [Buffer_ReadFrom File_Close Client_Close MemFS.Remote].
  unfold MemFS.readFrom. cbn [MemFS.h_path MemFS.h_flags].
  change (MemFS.readable os.O_RDONLY) with true. cbn iota. rewrite El. reflexivity.
Qed.

(** Every record of a tree names a regular file of the tree, below the
    directory, and gives its length. *)
Lemma tree_records_files (h : nat) :
  forall (n : MemFS.node) prefix dirPath (w : MemFS.server),
    MemFS.height n <= h ->
    MemFS.well_formed n ->
    MemFS.lookup (MemFS.segments dirPath) (MemFS.root w) = Some n ->
    forall r, In r (tree_records prefix n) ->
      exists rel data,
        name r = prefix ++ rel
        /\ MemFS.contents w (dirPath ++ rel) = Some data
        /\ size r = Z.of_nat (List.length data).
Proof.
  induction h as [|h IH]; intros n prefix dirPath w Hh Hwf Hl r Hr.
  - destruct n as [p t data|p t es]; [destruct Hr | cbn in Hh; lia].
  - destruct n as [p t data|p t es]; [destruct Hr|].
    assert (Inner : forall es', incl es' es ->
               In r (tree_records prefix (MemFS.Dir p t es')) ->
               exists rel data,
                 name r = prefix ++ rel
                 /\ MemFS.contents w (dirPath ++ rel) = Some data
                 /\ size r = Z.of_nat (List.length data)).
    { induction es' as [|[k c] es' IHe]; intros Hsub Hin'; [destruct Hin'|].
      assert (Hin : In (k, c) es) by (apply Hsub; now left).
      assert (Hsub' : incl es' es) by (intros e He; apply Hsub; now right).
      destruct (MemFS_well_formed_entry _ _ _ _ _ Hwf Hin) as (Hk & Hc & Hlt).
      assert (Hchild : MemFS.lookup (MemFS.segments ((dirPath ++ "/") ++ k))
                         (MemFS.root w) = Some c).
      { rewrite (MemFS_segments_child _ _ Hk), MemFS_lookup_app, Hl. cbn.
        destruct Hwf as [Hnd _]. now rewrite (MemFS_find_NoDup _ _ _ Hnd Hin). }
      rewrite tree_records_cons in Hin'. apply in_app_or in Hin' as [Hhere|Hrest];
        [|exact (IHe Hsub' Hrest)].
      destruct c as [p1 t1 data|p1 t1 es1].
      - destruct Hhere as [E|[]]. subst r. exists ("/" ++ k), data.
        cbn [name size newFile MemFS.info os.Name os.Size].
        rewrite append_assoc. split; [reflexivity|]. split; [|reflexivity].
        unfold MemFS.contents. rewrite <- append_assoc. now rewrite Hchild.
      - assert (Hhc : MemFS.height (MemFS.Dir p1 t1 es1) <= h) by lia.
        destruct (IH _ ((prefix ++ "/") ++ k) ((dirPath ++ "/") ++ k) w
                    Hhc Hc Hchild r Hhere) as (rel & data & E1 & E2 & E3).
        exists (("/" ++ k) ++ rel), data. split; [|split; [|exact E3]].
        + now rewrite E1, !append_assoc.
        + rewrite <- E2. f_equal. now rewrite !append_assoc. }
    exact (Inner es (incl_refl es) Hr).
Qed.

(** X7: on the in-memory server with a well-formed tree, every record that
    [ListAllFiles] returns can be read back: [ReadFile] on the path of the
    walk followed by the record's path returns, with no error, as many
    bytes as the record's size says. *)
Theorem MemFS_ListAllFiles_records_readable (c : SFTPClient) (fuel : nat)
    (dirPath : string) (w w' : MemFS.server) (p t : Z)
    (es : list (string * MemFS.node)) (recs : list fileInfo) :
  MemFS.lookup (MemFS.segments dirPath) (MemFS.root w) = Some (MemFS.Dir p t es) ->
  MemFS.well_formed (MemFS.Dir p t es) ->
  MemFS.height (MemFS.Dir p t es) <= fuel ->
  ListAllFiles (R := MemFS.Remote) c fuel dirPath w = (w', Some (recs, None)) ->
  forall r, In r recs ->
    exists data,
      ReadFile (R := MemFS.Remote) c (dirPath ++ name r) w = (w, (data, None))
      /\ size r = Z.of_nat (List.length data).
Proof.
  intros Hl Hwf Hh Hrun r Hr.
  assert (Hacc : MemFS.accepts w c = true).
  { revert Hrun. unfold ListAllFiles. rewrite bind_run, MemFS_connect.
    destruct (MemFS.accepts w c); [reflexivity | intros H; inversion H]. }
  revert Hrun. unfold ListAllFiles. rewrite bind_run, MemFS_connect, Hacc.
  unfold defer. rewrite !bind_run.
  rewrite (MemFS_walk_tree fuel dirPath "" [] w p t es Hl Hwf Hh).
  intros Hrun. injection Hrun as Ew Er. subst w' recs.
  destruct (tree_records_files _ _ "" dirPath w (le_n _) Hwf Hl r Hr)
    as (rel & data & E1 & E2 & E3).
  cbn in E1. subst rel. exists data. split; [|exact E3].
  now apply MemFS_ReadFile_file.
Qed.

(** ** What the file methods leave alone *)

(** An [alter] that puts a regular file where there was a regular file or
    nothing changes the bytes of no other path. *)
Lemma MemFS_alter_file_frame (f : option MemFS.node -> result MemFS.node)
    (Hf : forall o c, f o = inl c -> exists p t d, c = MemFS.File p t d)
    (segs : list string) :
  forall n n',
    MemFS.alter f segs n = inl n' ->
    (forall p t es, MemFS.lookup segs n <> Some (MemFS.Dir p t es)) ->
    forall segs2, segs2 <> segs ->
      match MemFS.lookup segs2 n' with
      | Some (MemFS.File _ _ d) => Some d
      | _ => None
      end
      = match MemFS.lookup segs2 n with
        | Some (MemFS.File _ _ d) => Some d
        | _ => None
        end.
Proof.
  induction segs as [|s segs IH]; intros n n'; cbn [MemFS.alter MemFS.lookup].
  - intros H Hnd [|s2 rest2] Hne; [congruence|].
    destruct (Hf _ _ H) as (p & t & d & ->).
    destruct n as [p0 t0 d0|p0 t0 es0]; [reflexivity|].
    destruct (Hnd p0 t0 es0 eq_refl).
  - destruct n as [p t data|p t es]; [discriminate|].
    destruct (MemFS.find s es) as [child|] eqn:Ef.
    + destruct (MemFS.alter f segs child) as [child'|err] eqn:Ea; [|discriminate].
      intros H Hnd [|s2 rest2] Hne; inversion H; subst; [reflexivity|].
      cbn [MemFS.lookup].
      destruct (String.eqb_spec s2 s) as [E|Hs].
      * subst s2. rewrite Ef, MemFS_find_replace_same by congruence.
        apply (IH _ _ Ea Hnd). congruence.
      * now rewrite MemFS_find_replace_other.
    + destruct segs as [|s' segs]; [|discriminate].
      destruct (f None) as [child'|err] eqn:Ef'; [|discriminate].
      intros H Hnd [|s2 rest2] Hne; inversion H; subst; [reflexivity|].
      cbn [MemFS.lookup].
      destruct (MemFS.find s2 es) as [c2|] eqn:Ef2.
      * now rewrite (MemFS_find_app_old _ _ _ _ Ef2).
      * rewrite (MemFS_find_app_none _ _ _ _ Ef2).
        destruct (String.eqb_spec s s2) as [E|Hs]; [|reflexivity].
        subst s2. destruct (Hf _ _ Ef') as (p1 & t1 & d1 & ->).
        destruct rest2 as [|s3 rest3]; [congruence | reflexivity].
Qed.

Lemma MemFS_openFile_frame (path : string) (flags : Z) (w w1 : MemFS.server)
    (r : result MemFS.handle) (q : string) :
  MemFS.openFile path flags w = (w1, r) ->
  MemFS.segments q <> MemFS.segments path ->
  MemFS.contents w1 q = MemFS.contents w q.
Proof.
  unfold MemFS.openFile, MemFS.contents. intros H Hq.
  destruct (MemFS.lookup (MemFS.segments path) (MemFS.root w))
    as [[p t d|p t es]|] eqn:El.
  - destruct (Z.testbit flags 9 && MemFS.writable flags);
      [|inversion H; reflexivity].
    destruct (MemFS.alter _ _ _) as [root1|err] eqn:Ea; inversion H; subst;
      [|reflexivity].
    cbn [MemFS.root MemFS.with_root].
    refine (MemFS_alter_file_frame _ _ _ _ _ Ea _ _ Hq);
      [intros o c E; inversion E; do 3 eexists; reflexivity
      |intros; rewrite El; discriminate].
  - destruct (MemFS.writable flags); inversion H; reflexivity.
  - destruct (Z.testbit flags 6); [|inversion H; reflexivity].
    destruct (MemFS.alter _ _ _) as [root1|err] eqn:Ea; inversion H; subst;
      [|reflexivity].
    cbn [MemFS.root MemFS.with_root].
    refine (MemFS_alter_file_frame _ _ _ _ _ Ea _ _ Hq);
      [intros o c E; inversion E; do 3 eexists; reflexivity
      |intros; rewrite El; discriminate].
Qed.

Lemma MemFS_write_frame (h : MemFS.handle) (data : list byte) (w w1 : MemFS.server)
    (r : result Z) (q : string) :
  MemFS.write h data w = (w1, r) ->
  MemFS.segments q <> MemFS.segments (MemFS.h_path h) ->
  MemFS.contents w1 q = MemFS.contents w q.
Proof.
  unfold MemFS.write, MemFS.contents. intros H Hq.
  destruct (MemFS.writable (MemFS.h_flags h)); [|inversion H; reflexivity].
  destruct (MemFS.alter _ _ _) as [root1|err] eqn:Ea; inversion H; subst;
    [|reflexivity].
  cbn [MemFS.root MemFS.with_root].
  pose proof (MemFS_lookup_alter _ _ _ _ Ea) as [c0 [Hc0 _]].
  refine (MemFS_alter_file_frame _ _ _ _ _ Ea _ _ Hq).
  - intros [[p t d|p t es]|] c E; inversion E; do 3 eexists; reflexivity.
  - intros p t es E. rewrite E in Hc0. discriminate.
Qed.

(** X8: on the in-memory server, whatever they return, [OverwriteFile] and
    [AppendToFile] change the bytes of no file but the one at [filePath]:
    any path that resolves elsewhere holds afterwards what it held
    before. *)
Theorem MemFS_file_methods_frame (c : SFTPClient) (filePath data q : string)
    (w : MemFS.server) :
  MemFS.segments q <> MemFS.segments filePath ->
  MemFS.contents (fst (OverwriteFile (R := MemFS.Remote) c filePath data w)) q
  = MemFS.contents w q
  /\ MemFS.contents (fst (AppendToFile (R := MemFS.Remote) c filePath data w)) q
     = MemFS.contents w q.
Proof.
  intros Hq. split.
  - unfold OverwriteFile. rewrite bind_run, MemFS_connect.
    destruct (MemFS.accepts w c); [|reflexivity].
    unfold defer, bind, ret.
    cbn [Client_Create File_Write File_Close Client_Close MemFS.Remote].
    destruct (MemFS.openFile filePath _ w) as [w1 [h|err]] eqn:Eo; cbn [fst].
    + destruct (MemFS.write h (bytes_of_string data) w1) as [w2 r] eqn:Ew.
      assert (Eh : MemFS.h_path h = filePath).
      { revert Eo. unfold MemFS.openFile.
        repeat match goal with
               | |- context [match ?x with _ => _ end] => destruct x
               end; intros E; inversion E; reflexivity. }
      rewrite <- Eh in Hq.
      destruct r; unfold ret; cbn beta iota; cbn [fst];
      rewrite (MemFS_write_frame _ _ _ _ _ _ Ew Hq);
        rewrite Eh in Hq; exact (MemFS_openFile_frame _ _ _ _ _ _ Eo Hq).
    + exact (MemFS_openFile_frame _ _ _ _ _ _ Eo Hq).
  - unfold AppendToFile. rewrite bind_run, MemFS_connect.
    destruct (MemFS.accepts w c); [|reflexivity].
    unfold defer. rewrite !bind_run. cbn [Client_Stat MemFS.Remote].
    rewrite MemFS_stat_exists.
    destruct (MemFS.lookup (MemFS.segments filePath) (MemFS.root w)) as [n|];
      unfold bind, ret;
      cbn [Client_OpenFile Client_Create File_Write File_Close Client_Close
             MemFS.Remote];
      destruct (MemFS.openFile filePath _ w) as [w1 [h|err]] eqn:Eo; cbn [fst];
      try exact (MemFS_openFile_frame _ _ _ _ _ _ Eo Hq).
    all: destruct (MemFS.write h (bytes_of_string data) w1) as [w2 r] eqn:Ew.
    all: assert (Eh : MemFS.h_path h = filePath)
      by (revert Eo; unfold MemFS.openFile;
          repeat match goal with
                 | |- context [match ?x with _ => _ end] => destruct x
                 end; intros E; inversion E; reflexivity).
    all: rewrite <- Eh in Hq.
    all: destruct r; unfold ret; cbn beta iota; cbn [fst];
      rewrite (MemFS_write_frame _ _ _ _ _ _ Ew Hq);
      rewrite Eh in Hq; exact (MemFS_openFile_frame _ _ _ _ _ _ Eo Hq).
Qed.

(** ** The directory methods *)

(** X9: whatever the remote side, [CreateDirectoryRecursively] does not
    see a slash in front of the path, a slash behind it or a slash
    doubled inside it: the call with such a path is the call without. *)
Theorem CreateDirectoryRecursively_slashes
    {W Conn Client File : Type} (R : RemoteFilesystem W Conn Client File)
    (c : SFTPClient) (p a b : string) (w : W) :
  CreateDirectoryRecursively (R := R) c ("/" ++ p) w
  = CreateDirectoryRecursively (R := R) c p w
  /\ CreateDirectoryRecursively (R := R) c (p ++ "/") w
     = CreateDirectoryRecursively (R := R) c p w
  /\ CreateDirectoryRecursively (R := R) c (a ++ "//" ++ b) w
     = CreateDirectoryRecursively (R := R) c (a ++ "/" ++ b) w.
Proof.
  split; [|split]; apply CreateDirectoryRecursively_components.
  - exact (components_app "" p).
  - etransitivity; [exact (components_app p "") | apply app_nil_r].
  - etransitivity; [exact (components_app a ("/" ++ b))|].
    now rewrite (components_app a b).
Qed.

(** X10: whatever the remote side, on a path of one component [s]
    [CreateDirectoryRecursively] is [CreateDirectoryIfNotExist] of
    ["/" ++ s]: the same state afterwards and the same result (with the
    logged remote side for [R]: the same calls).  The path as given is not
    what is probed: a relative ["s"] is looked for at the root. *)
Theorem CreateDirectoryRecursively_one_component
    {W Conn Client File : Type} (R : RemoteFilesystem W Conn Client File)
    (c : SFTPClient) (dirPath s : string) (w : W) :
  components dirPath = [s] ->
  CreateDirectoryRecursively (R := R) c dirPath w
  = CreateDirectoryIfNotExist (R := R) c ("/" ++ s) w.
Proof.
  intros Hs. unfold CreateDirectoryRecursively, CreateDirectoryIfNotExist.
  rewrite !bind_run. destruct (connect c w) as [w1 [client|err]]; [|reflexivity].
  unfold defer. rewrite !bind_run.
  rewrite (createComponents_filter R client (strings.Split dirPath "/")).
  fold (components dirPath). rewrite Hs.
  assert (Hne : (s =? "")%string = false).
  { assert (Hin : In s (components dirPath)) by (rewrite Hs; now left).
    unfold components in Hin. apply filter_In in Hin as [_ Hin].
    now apply negb_true_iff in Hin. }
  cbn [createComponents]. rewrite Hne.
  change ("" ++ ("/" ++ s))%string with ("/" ++ s)%string.
  rewrite !bind_run.
  destruct (Client_Stat client ("/" ++ s) w1) as [w2 [fi|e]]; [reflexivity|].
  rewrite !bind_run.
  destruct (Client_Mkdir client ("/" ++ s) w2) as [w3 [e'|]]; reflexivity.
Qed.

(** X11: whatever the remote side, a [CreateDirectoryIfNotExist] whose
    probe answers returns nil and creates nothing, whatever the probe says
    the path is (a directory or not); and [Mkdir] is called only on
    [dirPath], only after the probe has failed, and its answer is the
    result. *)
Theorem CreateDirectoryIfNotExist_calls
    {W Conn Client File : Type} (R : RemoteFilesystem W Conn Client File)
    (c : SFTPClient) (dirPath : string) (w w' : W) (log : list event)
    (r : option error) :
  CreateDirectoryIfNotExist (R := Logged R) c dirPath (w, []) = ((w', log), r) ->
  (forall fi,
      In (EvStat dirPath (inl fi)) log ->
      r = None
      /\ log = [dial_event c None; EvNewClient None;
                EvStat dirPath (inl fi); EvClientClose])
  /\ (forall q o,
         In (EvMkdir q o) log ->
         q = dirPath /\ o = r
         /\ exists e,
              log = [dial_event c None; EvNewClient None;
                     EvStat dirPath (inr e); EvMkdir dirPath r; EvClientClose]).
Proof.
  revert w' log r. run_package. repeat call.
  all: intros w' log r H; inversion H; subst; clear H.
  all: split; [intros ? Hin | intros ? ? Hin]; pick_event Hin.
  all: inversion Hin; subst; repeat split; eexists; reflexivity.
Qed.

(** ** CreateDirectoryRecursively on the in-memory server *)

Lemma MemFS_CreateDirectoryIfNotExist_run (c : SFTPClient) (dirPath : string)
    (v : MemFS.server) :
  CreateDirectoryIfNotExist (R := MemFS.Remote) c dirPath v
  = if MemFS.accepts v c then
      match MemFS.lookup (MemFS.segments dirPath) (MemFS.root v) with
      | Some _ => (v, None)
      | None => MemFS.mkdir dirPath v
      end
    else (v, Some (ConnectionError "ssh: handshake failed")).
Proof.
  unfold CreateDirectoryIfNotExist. unfold bind at 1.
  rewrite MemFS_connect. destruct (MemFS.accepts v c); [|reflexivity].
  unfold defer. unfold bind at 1 2. cbn [Client_Stat MemFS.Remote].
  rewrite MemFS_stat_exists.
  destruct (MemFS.lookup _ _); [reflexivity|].
  unfold bind, ret. cbn [Client_Mkdir Client_Close MemFS.Remote].
  destruct (MemFS.mkdir dirPath v) as [v1 [err|]]; reflexivity.
Qed.

Lemma MemFS_CreateDirectoryRecursively_loop (c : SFTPClient) (dirPath : string)
    (w : MemFS.server) :
  MemFS.accepts w c = true ->
  CreateDirectoryRecursively (R := MemFS.Remote) c dirPath w
  = createComponents (R := MemFS.Remote) tt (components dirPath) "" w.
Proof.
  intros Hacc. unfold CreateDirectoryRecursively. rewrite bind_run, MemFS_connect, Hacc.
  unfold defer. rewrite bind_run.
  rewrite (createComponents_filter MemFS.Remote tt (strings.Split dirPath "/")).
  fold (components dirPath).
  destruct (createComponents tt (components dirPath) "" w) as [w1 r].
  reflexivity.
Qed.

Lemma MemFS_createComponents_each (c : SFTPClient) (comps : list string) :
  Forall (fun s => (s =? "")%string = false) comps ->
  forall currentPath (w : MemFS.server),
    MemFS.accepts w c = true ->
    createComponents (R := MemFS.Remote) tt comps currentPath w
    = ensure_each (R := MemFS.Remote) c (prefixes currentPath comps) w.
Proof.
  induction 1 as [|s comps Hs Hrest IH]; intros cur w Hacc; [reflexivity|].
  cbn [createComponents prefixes ensure_each]. rewrite Hs, !bind_run.
  rewrite MemFS_CreateDirectoryIfNotExist_run, Hacc.
  cbn [Client_Stat MemFS.Remote]. rewrite MemFS_stat_exists.
  destruct (MemFS.lookup _ _); [now apply IH|].
  rewrite bind_run. cbn [Client_Mkdir MemFS.Remote].
  destruct (MemFS.mkdir (cur ++ "/" ++ s) w) as [w1 [err|]] eqn:Em; [reflexivity|].
  apply IH. apply MemFS_mkdir_spec in Em as [Ea _]. now rewrite Ea.
Qed.

Lemma components_nonempty (path : string) :
  Forall (fun s => (s =? "")%string = false) (components path).
Proof.
  apply Forall_forall. intros s Hin. unfold components in Hin.
  apply filter_In in Hin as [_ Hin]. now apply negb_true_iff in Hin.
Qed.

(** X12: on the in-memory server, for a client it lets in,
    [CreateDirectoryRecursively] of a path is [CreateDirectoryIfNotExist]
    of each of its prefixes in turn, from the shortest, up to the first
    that returns an error: the same state afterwards, the same result. *)
Theorem MemFS_CreateDirectoryRecursively_each (c : SFTPClient) (dirPath : string)
    (w : MemFS.server) :
  MemFS.accepts w c = true ->
  CreateDirectoryRecursively (R := MemFS.Remote) c dirPath w
  = ensure_each (R := MemFS.Remote) c (prefixes "" (components dirPath)) w.
Proof.
  intros Hacc. rewrite (MemFS_CreateDirectoryRecursively_loop _ _ _ Hacc).
  apply MemFS_createComponents_each; [apply components_nonempty | exact Hacc].
Qed.

Lemma MemFS_createComponents_made (comps : list string) :
  forall currentPath (w w' : MemFS.server),
    createComponents (R := MemFS.Remote) tt comps currentPath w = (w', None) ->
    MemFS.accepts w' = MemFS.accepts w
    /\ (forall q, MemFS.exists_at w q = true -> MemFS.exists_at w' q = true)
    /\ (forall q, In q (prefixes currentPath
                          (filter (fun s => negb (s =? "")%string) comps)) ->
                  MemFS.exists_at w' q = true).
Proof.
  induction comps as [|s comps IH]; intros cur w w'.
  - cbn. intros H. inversion H; subst. repeat split; [auto | intros q []].
  - cbn [createComponents filter].
    destruct (s =? "")%string eqn:Es; cbn [negb]; [apply IH|].
    cbn [prefixes]. rewrite bind_run. cbn [Client_Stat MemFS.Remote].
    rewrite MemFS_stat_exists.
    destruct (MemFS.lookup (MemFS.segments (cur ++ "/" ++ s)) (MemFS.root w))
      as [n|] eqn:El.
    + intros H. destruct (IH _ _ _ H) as (Ha & Hk & Hm).
      split; [exact Ha | split; [exact Hk|]].
      intros q [<-|Hq]; [|now apply Hm].
      apply Hk. unfold MemFS.exists_at. now rewrite El.
    + rewrite bind_run. cbn [Client_Mkdir MemFS.Remote].
      destruct (MemFS.mkdir (cur ++ "/" ++ s) w) as [w1 [err|]] eqn:Em;
        [intros H; inversion H|].
      intros H. destruct (IH _ _ _ H) as (Ha & Hk & Hm).
      pose proof (MemFS_mkdir_spec _ _ _ _ Em) as [Ea1 El1].
      split; [now rewrite Ha | split].
      * intros q Hq. apply Hk. exact (MemFS_mkdir_keeps _ _ _ _ _ Em Hq).
      * intros q [<-|Hq]; [|now apply Hm].
        apply Hk. unfold MemFS.exists_at. now rewrite El1.
Qed.

Lemma MemFS_createComponents_present (comps : list string) :
  forall currentPath (w : MemFS.server),
    (forall q, In q (prefixes currentPath
                       (filter (fun s => negb (s =? "")%string) comps)) ->
               MemFS.exists_at w q = true) ->
    createComponents (R := MemFS.Remote) tt comps currentPath w = (w, None).
Proof.
  induction comps as [|s comps IH]; intros cur w Hall; [reflexivity|].
  cbn [createComponents filter] in *.
  destruct (s =? "")%string eqn:Es; cbn [negb] in *; [now apply IH|].
  cbn [prefixes] in Hall. rewrite bind_run. cbn [Client_Stat MemFS.Remote].
  rewrite MemFS_stat_exists.
  pose proof (Hall _ (or_introl eq_refl)) as He. unfold MemFS.exists_at in He.
  destruct (MemFS.lookup (MemFS.segments (cur ++ "/" ++ s)) (MemFS.root w));
    [|discriminate].
  apply IH. intros q Hq. apply Hall. now right.
Qed.

(** X13: on the in-memory server, after a [CreateDirectoryRecursively]
    that returned no error every prefix of the path is there, whatever
    was there before still is, and a second call in a row returns no
    error and changes nothing. *)
Theorem MemFS_CreateDirectoryRecursively_idempotent (c : SFTPClient)
    (dirPath : string) (w w1 : MemFS.server) :
  CreateDirectoryRecursively (R := MemFS.Remote) c dirPath w = (w1, None) ->
  (forall q, In q (prefixes "" (components dirPath)) ->
             MemFS.exists_at w1 q = true)
  /\ (forall q, MemFS.exists_at w q = true -> MemFS.exists_at w1 q = true)
  /\ CreateDirectoryRecursively (R := MemFS.Remote) c dirPath w1 = (w1, None).
Proof.
  intros H.
  assert (Hacc : MemFS.accepts w c = true).
  { revert H. unfold CreateDirectoryRecursively. rewrite bind_run, MemFS_connect.
    destruct (MemFS.accepts w c); [reflexivity | intros E; inversion E]. }
  rewrite (MemFS_CreateDirectoryRecursively_loop _ _ _ Hacc) in H.
  destruct (MemFS_createComponents_made _ _ _ _ H) as (Ha & Hk & Hm).
  assert (Ef : filter (fun s => negb (s =? "")%string) (components dirPath)
               = components dirPath).
  { apply forallb_filter_id. apply forallb_forall. intros s Hin.
    pose proof (components_nonempty dirPath) as Hne.
    rewrite Forall_forall in Hne. now rewrite (Hne _ Hin). }
  rewrite Ef in Hm.
  split; [exact Hm | split; [exact Hk|]].
  rewrite MemFS_CreateDirectoryRecursively_loop by (now rewrite Ha).
  apply MemFS_createComponents_present. now rewrite Ef.
Qed.

(** ** Errors are returned as the calls answered them *)

Lemma walk_reported {W Conn Client File : Type}
    (R : RemoteFilesystem W Conn Client File) (fuel : nat) :
  forall dirPath prefix client acc w log w' log' acc' out,
    listAllFilesRecursive (R := Logged R) fuel dirPath prefix client acc (w, log)
    = ((w', log'), (acc', out)) ->
    exists ext, (log' = log ++ ext)%list
                /\ reported_errors ext
                   = returned (match out with Some o => o | None => None end).
Proof.
  induction fuel as [|fuel IH]; intros dirPath prefix client acc w log w' log' acc' out.
  - cbn. intros H. inversion H; subst. exists []. split; [now rewrite app_nil_r | reflexivity].
  - cbn [listAllFilesRecursive]. rewrite bind_run.
    cbn [Client_ReadDir Logged]. unfold logged at 1. cbn [fst snd].
    destruct (Client_ReadDir client dirPath w) as [w1 [files|err]].
    + match goal with
      | |- ?F files acc _ = _ -> _ =>
          assert (Inner : forall fs acc1 w2 log1,
                     F fs acc1 (w2, log1) = ((w', log'), (acc', out)) ->
                     exists ext, (log' = log1 ++ ext)%list
                                 /\ reported_errors ext
                                    = returned (match out with
                                                | Some o => o
                                                | None => None
                                                end))
      end.
      { induction fs as [|f fs IHf]; intros acc1 w2 log1 H.
        - inversion H; subst. exists []. split; [now rewrite app_nil_r | reflexivity].
        - destruct (os.IsDir f).
          + rewrite bind_run in H.
            destruct (listAllFilesRecursive fuel _ _ client acc1 (w2, log1))
              as [[w3 log2] [acc2 out2]] eqn:Er.
            apply IH in Er as [ext2 [E2 F2]].
            destruct out2 as [[err|]|];
              [inversion H; subst; eauto | | inversion H; subst; eauto].
            apply IHf in H as [ext3 [E3 F3]].
            exists (ext2 ++ ext3)%list. split.
            * now rewrite E3, E2, app_assoc.
            * unfold reported_errors in *. now rewrite flat_map_app, F2, F3.
          + apply (IHf _ _ _ H). }
      intros H. apply Inner in H as [ext [E F]].
      exists (EvReadDir dirPath (inl files) :: ext). split.
      * now rewrite E, <- app_assoc.
      * exact F.
    + intros H. inversion H; subst. eexists. split; reflexivity.
Qed.

Lemma ensure_path_run_reported (qs : list string) (t : list event)
    (r : option error) :
  ensure_path_run qs t r -> reported_errors t = returned r.
Proof. induction 1; cbn; auto. Qed.

(** X14: whatever the remote side, what a method returns is what the
    calls answered: the errors of its calls, the failed probes apart, are
    none when it returns nil and the one it returns otherwise.  So no
    error is changed or wrapped, no call but a probe fails without the
    method returning its error, and after a failure nothing is called that
    could fail. *)
Theorem methods_return_the_error_answered
    {W Conn Client File : Type} (R : RemoteFilesystem W Conn Client File)
    (c : SFTPClient) (path data : string) (fuel : nat) (w : W) :
  (let run := AppendToFile (R := Logged R) c path data (w, []) in
   reported_errors (snd (fst run)) = returned (snd run))
  /\ (let run := OverwriteFile (R := Logged R) c path data (w, []) in
      reported_errors (snd (fst run)) = returned (snd run))
  /\ (let run := ReadFile (R := Logged R) c path (w, []) in
      reported_errors (snd (fst run)) = returned (snd (snd run)))
  /\ (let run := ListOfFilesDir (R := Logged R) c path (w, []) in
      reported_errors (snd (fst run)) = returned (snd (snd run)))
  /\ (let run := ListAllFiles (R := Logged R) c fuel path (w, []) in
      reported_errors (snd (fst run)) = returned (listing_error (snd run)))
  /\ (let run := CreateDirectoryIfNotExist (R := Logged R) c path (w, []) in
      reported_errors (snd (fst run)) = returned (snd run))
  /\ (let run := CreateDirectoryRecursively (R := Logged R) c path (w, []) in
      reported_errors (snd (fst run)) = returned (snd run)).
Proof.
  split; [|split; [|split; [|split; [|split; [|split]]]]]; cbv zeta.
  - run_package. repeat call; reflexivity.
  - run_package. repeat call; reflexivity.
  - run_package. repeat call; reflexivity.
  - run_package. repeat call; reflexivity.
  - run_package.
    destruct (ssh_Dial _ _ _ w) as [w0 [conn|e0]]; cbn [fst snd app];
      [|reflexivity].
    destruct (sftp_NewClient conn w0) as [w1 [client|e1]]; cbn [fst snd app];
      [|reflexivity].
    destruct (listAllFilesRecursive fuel path "" client [] _)
      as [[w2 log2] [acc out]] eqn:Ew.
    apply walk_reported in Ew as [ext [E F]]. subst log2.
    destruct out as [[e2|]|]; cbn [fst snd];
      destruct (Client_Close client w2) as [w3 o]; cbn [fst snd listing_error];
      unfold reported_errors in *;
      cbn [flat_map reported failure app]; rewrite flat_map_app, F;
      cbn; now rewrite ?app_nil_r.
  - run_package. repeat call; reflexivity.
  - run_package.
    destruct (ssh_Dial _ _ _ w) as [w0 [conn|e0]]; cbn [fst snd app];
      [|reflexivity].
    destruct (sftp_NewClient conn w0) as [w1 [client|e1]]; cbn [fst snd app];
      [|reflexivity].
    destruct (createComponents client (strings.Split path "/") "" _)
      as [[w2 log2] r2] eqn:Ec.
    apply createComponents_run in Ec as [t [E Hrun]]. subst log2. cbn [fst snd].
    destruct (Client_Close client w2) as [w3 o]. cbn [fst snd].
    apply ensure_path_run_reported in Hrun.
    unfold reported_errors in *.
    cbn [flat_map reported failure app]. rewrite flat_map_app, Hrun.
    cbn. now rewrite ?app_nil_r.
Qed.

(** ** What the directory methods leave alone *)

(** An [alter] that only puts an empty directory where there was nothing
    changes the bytes of no path. *)
Lemma MemFS_alter_dir_frame (f : option MemFS.node -> result MemFS.node)
    (Hsome : forall x c, f (Some x) <> inl c)
    (Hnone : forall c, f None = inl c -> exists p t, c = MemFS.Dir p t [])
    (segs : list string) :
  forall n n',
    MemFS.alter f segs n = inl n' ->
    forall segs2,
      match MemFS.lookup segs2 n' with
      | Some (MemFS.File _ _ d) => Some d
      | _ => None
      end
      = match MemFS.lookup segs2 n with
        | Some (MemFS.File _ _ d) => Some d
        | _ => None
        end.
Proof.
  induction segs as [|s segs IH]; intros n n'; cbn [MemFS.alter MemFS.lookup].
  - intros H. destruct (Hsome _ _ H).
  - destruct n as [p t data|p t es]; [discriminate|].
    destruct (MemFS.find s es) as [child|] eqn:Ef.
    + destruct (MemFS.alter f segs child) as [child'|err] eqn:Ea; [|discriminate].
      intros H [|s2 rest2]; inversion H; subst; [reflexivity|].
      cbn [MemFS.lookup].
      destruct (String.eqb_spec s2 s) as [E|Hs].
      * subst s2. rewrite Ef, MemFS_find_replace_same by congruence.
        apply (IH _ _ Ea).
      * now rewrite MemFS_find_replace_other.
    + destruct segs as [|s' segs]; [|discriminate].
      destruct (f None) as [child'|err] eqn:Ef'; [|discriminate].
      intros H [|s2 rest2]; inversion H; subst; [reflexivity|].
      cbn [MemFS.lookup].
      destruct (MemFS.find s2 es) as [c2|] eqn:Ef2.
      * now rewrite (MemFS_find_app_old _ _ _ _ Ef2).
      * rewrite (MemFS_find_app_none _ _ _ _ Ef2).
        destruct (String.eqb_spec s s2) as [E|Hs]; [|reflexivity].
        destruct (Hnone _ eq_refl) as (p1 & t1 & ->).
        destruct rest2 as [|s3 rest3]; reflexivity.
Qed.

Lemma MemFS_mkdir_frame (path q : string) (w w1 : MemFS.server) (r : option error) :
  MemFS.mkdir path w = (w1, r) -> MemFS.contents w1 q = MemFS.contents w q.
Proof.
  unfold MemFS.mkdir, MemFS.contents. intros H.
  destruct (MemFS.alter _ _ _) as [root1|err] eqn:Ea; inversion H; subst;
    [|reflexivity].
  cbn [MemFS.root MemFS.with_root].
  refine (MemFS_alter_dir_frame _ _ _ _ _ _ Ea _).
  - intros x c0 E. discriminate E.
  - intros c0 E. inversion E. eauto.
Qed.

Lemma MemFS_createComponents_frame (q : string) (comps : list string) :
  forall currentPath (w : MemFS.server),
    MemFS.contents
      (fst (createComponents (R := MemFS.Remote) tt comps currentPath w)) q
    = MemFS.contents w q.
Proof.
  induction comps as [|s comps IH]; intros cur w; [reflexivity|].
  cbn [createComponents].
  destruct (s =? "")%string; [apply IH|].
  rewrite bind_run. cbn [Client_Stat MemFS.Remote]. rewrite MemFS_stat_exists.
  destruct (MemFS.lookup _ _); [apply IH|].
  rewrite bind_run. cbn [Client_Mkdir MemFS.Remote].
  destruct (MemFS.mkdir (cur ++ "/" ++ s) w) as [w1 [err|]] eqn:Em.
  - exact (MemFS_mkdir_frame _ _ _ _ _ Em).
  - rewrite IH. exact (MemFS_mkdir_frame _ _ _ _ _ Em).
Qed.

(** X15: on the in-memory server, whatever they return,
    [CreateDirectoryIfNotExist] and [CreateDirectoryRecursively] change the
    bytes of no file: every path holds afterwards the bytes it held
    before, also a regular file that lies on the path to create. *)
Theorem MemFS_directory_methods_keep_files (c : SFTPClient) (dirPath q : string)
    (w : MemFS.server) :
  MemFS.contents (fst (CreateDirectoryIfNotExist (R := MemFS.Remote) c dirPath w)) q
  = MemFS.contents w q
  /\ MemFS.contents
       (fst (CreateDirectoryRecursively (R := MemFS.Remote) c dirPath w)) q
     = MemFS.contents w q.
Proof.
  split.
  - rewrite MemFS_CreateDirectoryIfNotExist_run.
    destruct (MemFS.accepts w c); [|reflexivity].
    destruct (MemFS.lookup _ _); [reflexivity|].
    destruct (MemFS.mkdir dirPath w) as [w1 r] eqn:Em.
    exact (MemFS_mkdir_frame _ _ _ _ _ Em).
  - destruct (MemFS.accepts w c) eqn:Hacc.
    + rewrite (MemFS_CreateDirectoryRecursively_loop _ _ _ Hacc).
      apply MemFS_createComponents_frame.
    + unfold CreateDirectoryRecursively. now rewrite bind_run, MemFS_connect, Hacc.
Qed.

(** ** The further properties on the sample server *)

(** A read of [/root/f1] that is cut after two bytes, and the listings
    behind the front that refuses [/root/sub]. *)
Lemma errors_carry_no_payload_witness :
  fst (snd (ReadFile
              (R := CutReads 2 (RemoteOperationError "connection lost") MemFS.Remote)
              alice "/root/f1" sample)) = []
  /\ fst (snd (ListOfFilesDir (R := guarded) alice "/root/sub" sample)) = []
  /\ (forall recs,
         snd (ListAllFiles (R := guarded) alice 3 "/root" sample)
         = Some (recs, Some (RemoteOperationError "permission denied")) ->
         recs = []).
Proof.
  split; [|split].
  - eapply (proj1 (errors_carry_no_payload
                     (CutReads 2 (RemoteOperationError "connection lost") MemFS.Remote)
                     alice "/root/f1" 0 sample)).
    vm_compute. reflexivity.
  - eapply (proj1 (proj2 (errors_carry_no_payload guarded alice "/root/sub" 0 sample))).
    vm_compute. reflexivity.
  - intros recs H.
    eapply (proj1 (proj2 (proj2 (errors_carry_no_payload guarded alice "/root" 3
                                   sample))) sample recs).
    vm_compute in H. inversion H. vm_compute. reflexivity.
Defined.

(** [/notes] is there: it is opened with the flags 1025 and written to;
    [/root], a directory, is there too: it is opened with the same flags,
    the opening fails and that error is returned. *)
Lemma AppendToFile_answered_probe_appends_witness :
  (exists opened,
      snd (fst (AppendToFile (R := Logged MemFS.Remote) alice "/notes" "Y"
                  (sample, [])))
      = ([dial_event alice None; EvNewClient None;
          EvStat "/notes"
            (inl (MemFS.info "notes" (MemFS.File 420 3 (bytes_of_string "X"))));
          EvOpenFile "/notes" 1025 opened]
         ++ match opened with
            | Some _ => []
            | None => [EvWrite (bytes_of_string "Y")
                         (snd (AppendToFile (R := Logged MemFS.Remote) alice
                                 "/notes" "Y" (sample, [])));
                       EvFileClose]
            end
         ++ [EvClientClose])%list
      /\ (forall err, opened = Some err ->
                      snd (AppendToFile (R := Logged MemFS.Remote) alice "/notes"
                             "Y" (sample, [])) = Some err))
  /\ (forall p err,
         ~ In (EvCreate p err)
             (snd (fst (AppendToFile (R := Logged MemFS.Remote) alice "/root" "Y"
                          (sample, [])))))
  /\ In (EvOpenFile "/root" 1025
           (snd (AppendToFile (R := Logged MemFS.Remote) alice "/root" "Y"
                   (sample, []))))
       (snd (fst (AppendToFile (R := Logged MemFS.Remote) alice "/root" "Y"
                    (sample, [])))).
Proof.
  split; [|split].
  - edestruct (AppendToFile_answered_probe_appends MemFS.Remote alice "/notes" "Y"
                 sample)
      with (fi := MemFS.info "notes" (MemFS.File 420 3 (bytes_of_string "X")))
      as [Hlog _].
    + vm_compute. reflexivity.
    + vm_compute. tauto.
    + exact Hlog.
  - edestruct (AppendToFile_answered_probe_appends MemFS.Remote alice "/root" "Y"
                 sample)
      with (fi := MemFS.info "root"
                    (match MemFS.lookup ["root"] (MemFS.root sample) with
                     | Some n => n
                     | None => MemFS.root sample
                     end))
      as [_ [Hnever _]].
    + vm_compute. reflexivity.
    + vm_compute. tauto.
    + exact Hnever.
  - vm_compute. tauto.
Defined.

(** [/root/sub] holds the file [f2], of three bytes, and no directory:
    the one record is [/f2], of three bytes; behind the front that refuses
    the listing of [/root/sub] both methods return that error. *)
Lemma ListAllFiles_flat_directory_witness :
  (exists recs,
      ListAllFiles (R := MemFS.Remote) alice 1 "/root/sub" sample
      = (sample, Some (recs, None))
      /\ Forall2 (fun r f =>
                    name r = "/" ++ os.Name f
                    /\ size r = os.Size f
                    /\ mode r = os.Mode f
                    /\ modTime r = os.ModTime f
                    /\ isDir r = false
                    /\ Sys r = os.Sys f) recs
           (fst (snd (ListOfFilesDir (R := MemFS.Remote) alice "/root/sub" sample)))
      /\ map name recs = ["/f2"]
      /\ map size recs = [3%Z])
  /\ ListAllFiles (R := guarded) alice 1 "/root/sub" sample
     = (sample, Some ([], Some (RemoteOperationError "permission denied"))).
Proof.
  split.
  - destruct (proj1 (ListAllFiles_flat_directory MemFS.Remote alice "/root/sub" 0
                       sample sample)
                (fst (snd (ListOfFilesDir (R := MemFS.Remote) alice "/root/sub"
                             sample))))
      as [recs [E F]].
    + reflexivity.
    + vm_compute. repeat constructor.
    + exists recs. split; [exact E|]. split; [exact F|].
      inversion F as [|r f rs fs (Hn & Hs & _) Hrest]; subst.
      inversion Hrest; subst. cbn [map]. rewrite Hn, Hs. split; reflexivity.
  - eapply (proj2 (ListAllFiles_flat_directory guarded alice "/root/sub" 0
                     sample sample)).
    vm_compute. reflexivity.
Defined.

(** The records of [/root] are those of its tree: [/f1] and [/sub/f2]. *)
Lemma MemFS_ListAllFiles_tree_witness :
  exists n,
    MemFS.lookup (MemFS.segments "/root") (MemFS.root sample) = Some n
    /\ ListAllFiles (R := MemFS.Remote) alice 2 "/root" sample
       = (sample, Some (tree_records "" n, None))
    /\ map name (tree_records "" n) = ["/f1"; "/sub/f2"].
Proof.
  eexists. split; [vm_compute; reflexivity|]. split; [|reflexivity].
  eapply (MemFS_ListAllFiles_tree alice 2 "/root" sample).
  - reflexivity.
  - vm_compute. reflexivity.
  - cbn. repeat constructor; cbn; intuition discriminate.
  - vm_compute. lia.
Defined.

(** Each record of the listing of [/root] is read back under [/root]. *)
Lemma MemFS_ListAllFiles_records_readable_witness :
  Forall (fun r =>
            exists data,
              ReadFile (R := MemFS.Remote) alice ("/root" ++ name r) sample
              = (sample, (data, None))
              /\ size r = Z.of_nat (List.length data))
    (match snd (ListAllFiles (R := MemFS.Remote) alice 2 "/root" sample) with
     | Some (recs, _) => recs
     | None => []
     end).
Proof.
  apply Forall_forall. intros r Hr.
  eapply (MemFS_ListAllFiles_records_readable alice 2 "/root" sample sample).
  - vm_compute. reflexivity.
  - cbn. repeat constructor; cbn; intuition discriminate.
  - vm_compute. lia.
  - reflexivity.
  - exact Hr.
Defined.

(** Writing [/notes] leaves [/root/f1] holding ["one"]. *)
Lemma MemFS_file_methods_frame_witness :
  MemFS.contents
    (fst (OverwriteFile (R := MemFS.Remote) alice "/notes" "Y" sample)) "/root/f1"
  = Some (bytes_of_string "one")
  /\ MemFS.contents
       (fst (AppendToFile (R := MemFS.Remote) alice "/notes" "Y" sample)) "/root/f1"
     = Some (bytes_of_string "one").
Proof.
  apply (MemFS_file_methods_frame alice "/notes" "Y" "/root/f1" sample).
  vm_compute. discriminate.
Defined.

Lemma CreateDirectoryRecursively_one_component_witness :
  CreateDirectoryRecursively (R := MemFS.Remote) alice "new/" sample
  = CreateDirectoryIfNotExist (R := MemFS.Remote) alice "/new" sample
  /\ MemFS.exists_at
       (fst (CreateDirectoryRecursively (R := MemFS.Remote) alice "new/" sample))
       "/new" = true.
Proof.
  split; [|reflexivity].
  apply (CreateDirectoryRecursively_one_component MemFS.Remote alice "new/" "new"
           sample).
  reflexivity.
Defined.

(** [/notes] is a regular file: the probe answers, nil is returned and
    nothing is created; under the missing [/nodir] the creation is
    attempted and its error returned. *)
Lemma CreateDirectoryIfNotExist_calls_witness :
  (snd (CreateDirectoryIfNotExist (R := Logged MemFS.Remote) alice "/notes"
          (sample, [])) = None
   /\ snd (fst (CreateDirectoryIfNotExist (R := Logged MemFS.Remote) alice "/notes"
                  (sample, [])))
      = [dial_event alice None; EvNewClient None;
         EvStat "/notes"
           (inl (MemFS.info "notes" (MemFS.File 420 3 (bytes_of_string "X"))));
         EvClientClose])
  /\ os.IsDir (MemFS.info "notes" (MemFS.File 420 3 (bytes_of_string "X"))) = false
  /\ (exists e,
         snd (fst (CreateDirectoryIfNotExist (R := Logged MemFS.Remote) alice
                     "/nodir/x" (sample, [])))
         = [dial_event alice None; EvNewClient None;
            EvStat "/nodir/x" (inr e); EvMkdir "/nodir/x" (Some NotFoundError);
            EvClientClose]).
Proof.
  split; [|split; [reflexivity|]].
  - edestruct (CreateDirectoryIfNotExist_calls MemFS.Remote alice "/notes" sample)
      as [Hp _]; [vm_compute; reflexivity|].
    apply Hp. vm_compute. tauto.
  - edestruct (CreateDirectoryIfNotExist_calls MemFS.Remote alice "/nodir/x" sample)
      as [_ Hm]; [vm_compute; reflexivity|].
    destruct (Hm "/nodir/x" (Some NotFoundError)) as (_ & _ & e & E).
    + vm_compute. tauto.
    + exists e. exact E.
Defined.

Lemma MemFS_CreateDirectoryRecursively_each_witness :
  CreateDirectoryRecursively (R := MemFS.Remote) alice "/root/sub/x/y" sample
  = ensure_each (R := MemFS.Remote) alice
      ["/root"; "/root/sub"; "/root/sub/x"; "/root/sub/x/y"] sample.
Proof.
  apply (MemFS_CreateDirectoryRecursively_each alice "/root/sub/x/y" sample).
  reflexivity.
Defined.

Lemma MemFS_CreateDirectoryRecursively_idempotent_witness :
  MemFS.exists_at sample "/root/sub/x" = false
  /\ MemFS.exists_at
       (fst (CreateDirectoryRecursively (R := MemFS.Remote) alice "/root/sub/x/y"
               sample)) "/root/sub/x" = true
  /\ CreateDirectoryRecursively (R := MemFS.Remote) alice "/root/sub/x/y"
       (fst (CreateDirectoryRecursively (R := MemFS.Remote) alice "/root/sub/x/y"
               sample))
     = (fst (CreateDirectoryRecursively (R := MemFS.Remote) alice "/root/sub/x/y"
               sample), None).
Proof.
  split; [reflexivity|].
  assert (H : CreateDirectoryRecursively (R := MemFS.Remote) alice "/root/sub/x/y"
                sample
              = (fst (CreateDirectoryRecursively (R := MemFS.Remote) alice
                        "/root/sub/x/y" sample), None))
    by (vm_compute; reflexivity).
  destruct (MemFS_CreateDirectoryRecursively_idempotent alice "/root/sub/x/y"
              sample _ H) as (Hm & _ & Hi).
  split; [|exact Hi].
  apply Hm. vm_compute. tauto.
Defined.
